(** * Channel history pagination and bulk purge (dis_snek/models/discord/channel.py)

    A shallow embedding of [ChannelHistory.fetch], [MessageableMixin.get_messages],
    [delete_messages], [delete_message] and [purge].  Awaited calls on the HTTP
    client and on the object cache are recorded in a chronological event trace,
    and the remote side is an arbitrary deterministic function of the trace so
    far and of the request. *)

From Stdlib Require Import String ZArith QArith List Bool Lia Sorted Permutation.
Import ListNotations.
Open Scope Z_scope.
Set Warnings "-notation-for-abbreviation".

(** ** Data *)

(** The fields of [models.Message] that the code in scope reads. *)
Record Message := mkMessage {
  id : Z;          (* message.id, a snowflake *)
  author_id : Z;   (* message.author.id *)
  flags : Z        (* message.flags, an IntFlag *)
}.

(** Modelled from the spec: an optional snowflake argument.  The [MISSING]
    sentinel (dis_snek.client.const) is not in the sources; the spec reads it
    as "not provided", so [None] stands for both Python's [None] and
    [MISSING].  The code in scope only ever tests such an argument for
    truthiness, and both are falsy, as is the ID 0. *)
Definition Snowflake := option Z.

Definition truthy (s : Snowflake) : bool :=
  match s with
  | Some z => negb (z =? 0)
  | None => false
  end.

(** Modelled from the spec: [to_snowflake] (the snowflake module is not in
    the sources).  The spec has cursors and message IDs of one integer type,
    and on an integer ID the conversion changes nothing. *)
Definition to_snowflake (s : Z) : Z := s.

Definition Reason := option string.

Inductive exn :=
| ValueError (msg : string)
| HTTPException (status : Z).

Module http.
(** Requests of [self._client.http], with their arguments in call order. *)
Inductive request :=
| get_channel_messages (channel_id limit : Z) (around before after : Snowflake)
| bulk_delete_messages (channel_id : Z) (message_ids : list Z) (reason : Reason)
| delete_message (channel_id message_id : Z) (reason : Reason).
End http.

Inductive Event :=
| Http (r : http.request)
| Cache (message_data : Message).   (* self._client.cache.place_message_data *)

Definition Trace := list Event.

(** ** A monad for awaited code

    A computation reads the trace of everything that happened before it and
    answers with its outcome and the events it added, in order. *)

Inductive result (A : Type) :=
| Return (a : A)
| Raise (e : exn)
| Timeout.               (* the fuel of a loop ran out *)
Arguments Return {A} a.
Arguments Raise {A} e.
Arguments Timeout {A}.

Definition M (A : Type) := Trace -> result A * Trace.

Definition ret {A} (a : A) : M A := fun _ => (Return a, []).
Definition raise {A} (e : exn) : M A := fun _ => (Raise e, []).
Definition timeout {A} : M A := fun _ => (Timeout, []).

Definition bind {A B} (m : M A) (k : A -> M B) : M B :=
  fun w =>
    let (r, evs) := m w in
    match r with
    | Return a => let (r', evs') := k a (w ++ evs) in (r', evs ++ evs')
    | Raise e => (Raise e, evs)
    | Timeout => (Timeout, evs)
    end.

Declare Scope await_scope.
Delimit Scope await_scope with await.
Notation "x <- m ;; k" := (bind m (fun x => k))
  (at level 61, m at next level, right associativity) : await_scope.
Notation "m ;;; k" := (bind m (fun _ => k))
  (at level 61, right associativity) : await_scope.
Open Scope await_scope.

Fixpoint mapM {A B} (f : A -> M B) (l : list A) : M (list B) :=
  match l with
  | [] => ret []
  | a :: l' => b <- f a ;; bs <- mapM f l' ;; ret (b :: bs)
  end.

(** ** Python list primitives used by the code *)

(** [list.sort(key=lambda x: x.id)]: a stable ascending sort. *)
Fixpoint insert_asc (m : Message) (l : list Message) : list Message :=
  match l with
  | [] => [m]
  | x :: l' => if id m <=? id x then m :: l else x :: insert_asc m l'
  end.

Definition sort_asc (l : list Message) : list Message :=
  fold_right insert_asc [] l.

(** [list.sort(key=lambda x: x.id, reverse=True)]: a stable descending sort. *)
Fixpoint insert_desc (m : Message) (l : list Message) : list Message :=
  match l with
  | [] => [m]
  | x :: l' => if id x <=? id m then m :: l else x :: insert_desc m l'
  end.

Definition sort_desc (l : list Message) : list Message :=
  fold_right insert_desc [] l.

(** [list.pop()]: remove and return the last element. *)
Definition pop (l : list Z) : option (Z * list Z) :=
  match rev l with
  | [] => None
  | x :: r => Some (x, rev r)
  end.

(** [[l.pop() for i in range(n)]]: the comprehension and the list left. *)
Fixpoint pop_many (n : nat) (l : list Z) : list Z * list Z :=
  match n with
  | O => ([], l)
  | S n' =>
      match pop l with
      | None => ([], l)
      | Some (x, l') => let (it, rest) := pop_many n' l' in (x :: it, rest)
      end
  end.

(** ** The iterator state *)

Record ChannelHistory := mkChannelHistory {
  channel : Z;                 (* id of the channel searched *)
  before : Snowflake;
  after : Snowflake;
  around : Snowflake;
  _limit : Z;                  (* 0 stands for MISSING: no limit *)
  last : Snowflake;            (* self.last.id; None while nothing was seen *)
  _queue : list Message;       (* fetched, not yet yielded *)
  total_retrieved : Z          (* number of messages yielded so far *)
}.

Definition set_last (h : ChannelHistory) (l : Snowflake) : ChannelHistory :=
  mkChannelHistory (channel h) (before h) (after h) (around h) (_limit h) l
                   (_queue h) (total_retrieved h).

Definition set_limit (h : ChannelHistory) (n : Z) : ChannelHistory :=
  mkChannelHistory (channel h) (before h) (after h) (around h) n (last h)
                   (_queue h) (total_retrieved h).

(** [ChannelHistory.__init__]: stores its arguments and hands the limit to
    the base class, which starts, as the spec has it, with that limit (0:
    unlimited), nothing buffered, nothing handed out and no anchor seen. *)
Definition ChannelHistory_init (channel limit : Z) (before after around : Snowflake)
  : ChannelHistory :=
  mkChannelHistory channel before after around limit None [] 0.

(** Modelled from the spec: the page size of the base class [AsyncIterator]
    (dis_snek.models.snek, not in the sources), "min(100, remaining_limit) if
    remaining_limit > 0, else 100", where the remaining limit is the overall
    limit less the messages already yielded and an absent limit has none. *)
Definition get_limit (h : ChannelHistory) : Z :=
  let remaining := if _limit h =? 0 then 0 else _limit h - total_retrieved h in
  if 0 <? remaining then Z.min 100 remaining else 100.

(** [int(x)] on a float: the integer part, rounded towards zero. *)
Definition int (x : Q) : Z := Z.quot (Qnum x) (Zpos (Qden x)).

Section Channel.

(** The remote side: the reply to a request, given everything that happened
    before it.  [inl e] is a failed request. *)
Variable server : Trace -> http.request -> exn + list Message.

(** The object cache's [place_message_data]. *)
Variable place_message_data : Message -> Message.

(** [MessageFlags.LOADING], [DISCORD_EPOCH] and [self._client.user.id]. *)
Variable LOADING : Z.
Variable DISCORD_EPOCH : Z.
Variable client_user_id : Z.

(** Python's floats.  A float that is a number is a rational, as the one the
    clock answers is, and every operation on floats answers the exact result
    rounded to a float: [fl] is that rounding, whatever it is. *)
Variable fl : Q -> Q.

(** [await self._client.http.<request>]. *)
Definition http_request (r : http.request) : M (list Message) :=
  fun w =>
    match server w r with
    | inl e => (Raise e, [Http r])
    | inr data => (Return data, [Http r])
    end.

Definition cache_place (message_data : Message) : M Message :=
  fun _ => (Return (place_message_data message_data), [Cache message_data]).

(** [MessageableMixin.get_messages] on the channel with id [self]. *)
Definition get_messages (self : Z) (limit : Z) (around before after : Snowflake)
  : M (list Message) :=
  if 100 <? limit then
    raise (ValueError "You cannot fetch more than 100 messages at once.")
  else
    messages_data <- http_request (http.get_channel_messages self limit around before after) ;;
    mapM cache_place messages_data.

(** [ChannelHistory.fetch]: the page and the iterator after the call. *)
Definition fetch (h : ChannelHistory) : M (list Message * ChannelHistory) :=
  if truthy (after h) then
    let h := match last h with None => set_last h (after h) | Some _ => h end in
    messages <- get_messages (channel h) (get_limit h) None None (last h) ;;
    ret (sort_asc messages, h)
  else if truthy (around h) then
    messages <- get_messages (channel h) (get_limit h) (around h) None None ;;
    ret (messages, set_limit h 1)
  else
    let h := if truthy (before h) then
               match last h with None => set_last h (before h) | Some _ => h end
             else h in
    messages <- get_messages (channel h) (get_limit h) None (last h) None ;;
    ret (sort_desc messages, h).

(** Modelled from the spec: the driver of the base class [AsyncIterator]
    (dis_snek.models.snek, not in the sources).  The spec gives it a buffer
    of fetched messages, an overall limit (0: unbounded) and the last-seen
    anchor; the fetch step runs "whenever the consumer demands more items
    and the internal buffer is empty", the sequence ends when "a fetch
    returns zero results" (EndOfSequence) or the limit is reached, and the
    anchor read by the next fetch is the last message handed out. *)
Definition _continue (h : ChannelHistory) : bool :=
  (_limit h =? 0) || (total_retrieved h <? _limit h).

Definition yield (h : ChannelHistory) (m : Message) (q : list Message)
  : ChannelHistory :=
  mkChannelHistory (channel h) (before h) (after h) (around h) (_limit h)
                   (Some (id m)) q (total_retrieved h + 1).

(** Modelled from the spec: [AsyncIterator.__anext__]; [None] is the end of
    the sequence (StopAsyncIteration). *)
Definition anext (h : ChannelHistory) : M (option (Message * ChannelHistory)) :=
  match _queue h with
  | m :: q => ret (Some (m, yield h m q))
  | [] =>
      if _continue h then
        p <- fetch h ;;
        match fst p with
        | [] => ret None
        | m :: q => ret (Some (m, yield (snd p) m q))
        end
      else ret None
  end.

(** [async for message in h: s = body(message, s)], where the body answers
    [true] to [break].  The loop may not end (an unbounded history of a
    channel that never runs dry), hence the fuel. *)
Fixpoint async_for {S : Type} (fuel : nat) (h : ChannelHistory)
         (body : Message -> S -> bool * S) (s : S) : M S :=
  match fuel with
  | O => timeout
  | Datatypes.S fuel' =>
      r <- anext h ;;
      match r with
      | None => ret s
      | Some (m, h') =>
          let (brk, s') := body m s in
          if brk then ret s' else async_for fuel' h' body s'
      end
  end.

(** [await history.flatten()]: the whole sequence as a list. *)
Definition collect (m : Message) (l : list Message) : bool * list Message :=
  (false, l ++ [m]).

Definition flatten (fuel : nat) (h : ChannelHistory) : M (list Message) :=
  async_for fuel h collect [].

(** [MessageableMixin.history]. *)
Definition history (self limit : Z) (before after around : Snowflake)
  : ChannelHistory :=
  ChannelHistory_init self limit before after around.

(** [MessageableMixin.delete_message]. *)
Definition delete_message (self message : Z) (reason : Reason) : M unit :=
  http_request (http.delete_message self (to_snowflake message) reason) ;;;
  ret tt.

(** [MessageableMixin.delete_messages]. *)
Definition delete_messages (self : Z) (messages : list Z) (reason : Reason)
  : M unit :=
  let message_ids := map to_snowflake messages in
  if (length message_ids =? 1)%nat then
    delete_message self (hd 0 message_ids) reason
  else
    http_request (http.bulk_delete_messages self message_ids reason) ;;;
    ret tt.

(** [x - y] and [x * y] on floats, and [float(n)] for an integer [n]. *)
Definition float_sub (x y : Q) : Q := fl (x - y)%Q.
Definition float_mul (x y : Q) : Q := fl (x * y)%Q.
Definition float_of_int (n : Z) : Q := fl (inject_Z n).

(** [int((time.time() - 1209600) * 1000.0 - DISCORD_EPOCH) << 22], where
    [time.time()] answers the float [now]: two subtractions and a product in
    floats, the integers [1209600] and [DISCORD_EPOCH] converted to floats
    first, then [int], then the shift on integers. *)
Definition fourteen_days_ago (now : Q) : Z :=
  Z.shiftl
    (int (float_sub (float_mul (float_sub now (float_of_int 1209600)) (1000 # 1))
                    (float_of_int DISCORD_EPOCH)))
    22.

(** [message.author.id == self._client.user.id and
    MessageFlags.LOADING in message.flags]. *)
Definition is_own_loading (m : Message) : bool :=
  (author_id m =? client_user_id) && (Z.land LOADING (flags m) =? LOADING).

(** The body of the scanning loop of [purge]: whether it breaks, and
    [to_delete] after it. *)
Definition purge_body (deletion_limit : Z) (predicate : Message -> bool)
           (avoid_loading_msg : bool) (cutoff : Z)
           (message : Message) (to_delete : list Z) : bool * list Z :=
  if negb (deletion_limit =? 0) && (Z.of_nat (length to_delete) =? deletion_limit)
  then (true, to_delete)
  else if negb (predicate message) then (false, to_delete)
  else if avoid_loading_msg && is_own_loading message then (false, to_delete)
  else if id message <? cutoff then (false, to_delete)
  else (false, to_delete ++ [id message]).

(** The [while len(to_delete)] loop of [purge].  Every round removes at
    least one ID, so [length to_delete] rounds are enough. *)
Fixpoint purge_drain (fuel : nat) (self : Z) (to_delete : list Z) (reason : Reason)
  : M unit :=
  match to_delete with
  | [] => ret tt
  | _ :: _ =>
      match fuel with
      | O => timeout
      | S fuel' =>
          let (iteration, rest) :=
            pop_many (Nat.min 100 (length to_delete)) to_delete in
          delete_messages self iteration reason ;;;
          purge_drain fuel' self rest reason
      end
  end.

Record purge_args := mkPurgeArgs {
  deletion_limit : Z;
  search_limit : Z;
  predicate : option (Message -> bool);   (* None: MISSING *)
  avoid_loading_msg : bool;
  purge_before : Snowflake;
  purge_after : Snowflake;
  purge_around : Snowflake;
  reason : Reason
}.

Definition accept_all (m : Message) : bool := true.

(** The first half of [purge]: the scan that fills [to_delete]. *)
Definition purge_scan (fuel : nat) (self : Z) (a : purge_args) (now : Q)
  : M (list Z) :=
  let predicate := match predicate a with Some p => p | None => accept_all end in
  async_for fuel
    (history self (search_limit a) (purge_before a) (purge_after a) (purge_around a))
    (purge_body (deletion_limit a) predicate (avoid_loading_msg a)
                (fourteen_days_ago now))
    [].

(** [MessageableMixin.purge] on the channel with id [self], [time.time()]
    answering [now]. *)
Definition purge (fuel : nat) (self : Z) (a : purge_args) (now : Q) : M Z :=
  to_delete <- purge_scan fuel self a now ;;
  let count := Z.of_nat (length to_delete) in
  purge_drain (length to_delete) self to_delete (reason a) ;;;
  ret count.

End Channel.

(** ** What the delete phase is expected to send *)

(** Consecutive slices of at most [n] elements. *)
Fixpoint chunks (fuel n : nat) (l : list Z) : list (list Z) :=
  match l with
  | [] => []
  | _ :: _ =>
      match fuel with
      | O => []
      | S fuel' => firstn n l :: chunks fuel' n (skipn n l)
      end
  end.

(** The batches [purge] takes off [to_delete]: it drains the list from the
    back, a hundred IDs at a time. *)
Definition purge_batches (to_delete : list Z) : list (list Z) :=
  chunks (length to_delete) 100 (rev to_delete).

(** The request that [delete_messages] sends for one batch. *)
Definition batch_request (self : Z) (reason : Reason) (b : list Z) : http.request :=
  if (length b =? 1)%nat then http.delete_message self (hd 0 b) reason
  else http.bulk_delete_messages self b reason.

Definition is_bulk_delete (r : http.request) : bool :=
  match r with http.bulk_delete_messages _ _ _ => true | _ => false end.

Definition is_single_delete (r : http.request) : bool :=
  match r with http.delete_message _ _ _ => true | _ => false end.

Definition is_delete (r : http.request) : bool :=
  is_bulk_delete r || is_single_delete r.

Definition is_get (r : http.request) : bool :=
  match r with http.get_channel_messages _ _ _ _ _ => true | _ => false end.

(** The requests among the events of a trace, in order. *)
Fixpoint requests (evs : Trace) : list http.request :=
  match evs with
  | [] => []
  | Http r :: evs' => r :: requests evs'
  | Cache _ :: evs' => requests evs'
  end.

(** The message IDs a request asks to delete. *)
Definition request_ids (r : http.request) : list Z :=
  match r with
  | http.get_channel_messages _ _ _ _ _ => []
  | http.bulk_delete_messages _ ids _ => ids
  | http.delete_message _ i _ => [i]
  end.

Definition deleted_ids (evs : Trace) : list Z :=
  flat_map request_ids (requests evs).

Definition ascending (l : list Message) : Prop :=
  StronglySorted (fun a b => id a <= id b) l.

Definition descending (l : list Message) : Prop :=
  StronglySorted (fun a b => id b <= id a) l.

(** The request [fetch] sends, the page it makes of the reply, and the
    iterator it leaves, spelled out branch by branch. *)
Definition fetch_request (h : ChannelHistory) : http.request :=
  if truthy (after h) then
    http.get_channel_messages (channel h) (get_limit h) None None
      (match last h with None => after h | Some l => Some l end)
  else if truthy (around h) then
    http.get_channel_messages (channel h) (get_limit h) (around h) None None
  else
    http.get_channel_messages (channel h) (get_limit h) None
      (match last h with
       | None => if truthy (before h) then before h else None
       | Some l => Some l
       end) None.

Definition fetch_page (place_message_data : Message -> Message)
           (h : ChannelHistory) (data : list Message) : list Message :=
  if truthy (after h) then sort_asc (map place_message_data data)
  else if truthy (around h) then map place_message_data data
  else sort_desc (map place_message_data data).

Definition fetch_state (h : ChannelHistory) : ChannelHistory :=
  if truthy (after h) then
    match last h with None => set_last h (after h) | Some _ => h end
  else if truthy (around h) then set_limit h 1
  else if truthy (before h) then
    match last h with None => set_last h (before h) | Some _ => h end
  else h.

(** Calling [delete_messages] on one batch after the other. *)
Fixpoint delete_batches (server : Trace -> http.request -> exn + list Message)
         (self : Z) (bs : list (list Z)) (reason : Reason) : M unit :=
  match bs with
  | [] => ret tt
  | b :: bs' =>
      delete_messages server self b reason ;;;
      delete_batches server self bs' reason
  end.

(** A loop body that also keeps the messages the iterator handed to it. *)
Definition watch {S : Type} (body : Message -> S -> bool * S)
  : Message -> S * list Message -> bool * (S * list Message) :=
  fun m st =>
    let (brk, s') := body m (fst st) in (brk, (s', snd st ++ [m])).

(** What a loop body does to its state over a list of messages. *)
Fixpoint loop_fold {S : Type} (body : Message -> S -> bool * S)
         (msgs : list Message) (s : S) : S :=
  match msgs with
  | [] => s
  | m :: msgs' =>
      let (brk, s') := body m s in
      if brk then s' else loop_fold body msgs' s'
  end.

(** The three tests a message must pass to be selected by [purge]. *)
Definition selected (LOADING client_user_id : Z) (predicate : Message -> bool)
           (avoid_loading_msg : bool) (cutoff : Z) (m : Message) : bool :=
  predicate m
  && negb (avoid_loading_msg && is_own_loading LOADING client_user_id m)
  && negb (id m <? cutoff).

(** The predicate [purge] goes by and the iterator it scans. *)
Definition purge_predicate (a : purge_args) : Message -> bool :=
  match predicate a with Some p => p | None => accept_all end.

Definition purge_history (self : Z) (a : purge_args) : ChannelHistory :=
  history self (search_limit a) (purge_before a) (purge_after a) (purge_around a).

(** Of the three anchors, the one [fetch] goes by: a truthy [after] before
    a truthy [around] before a truthy [before]; the others cleared. *)
Definition precedence (before after around : Snowflake)
  : Snowflake * Snowflake * Snowflake :=
  if truthy after then (None, after, None)
  else if truthy around then (None, None, around)
  else if truthy before then (before, None, None)
  else (None, None, None).

(** The iterator with only that anchor left. *)
Definition resolve (h : ChannelHistory) : ChannelHistory :=
  let '(b, a, r) := precedence (before h) (after h) (around h) in
  mkChannelHistory (channel h) b a r
                   (_limit h) (last h) (_queue h) (total_retrieved h).

(** The last thing in [evs], which come after [w], is a page request that
    the remote side answered with no message at all. *)
Definition ends_on_empty_page (server : Trace -> http.request -> exn + list Message)
           (w evs : Trace) : Prop :=
  exists evs0 r,
    evs = evs0 ++ [Http r] /\ is_get r = true /\ server (w ++ evs0) r = inr [].

Definition map_result {A B} (f : A -> B) (r : result A) : result B :=
  match r with
  | Return a => Return (f a)
  | Raise e => Raise e
  | Timeout => Timeout
  end.

(** The remote side never sends more messages than the page asked for. *)
Definition honours_limit (server : Trace -> http.request -> exn + list Message)
  : Prop :=
  forall w c lim ar b a data,
    0 < lim ->
    server w (http.get_channel_messages c lim ar b a) = inr data ->
    Z.of_nat (length data) <= lim.

(** ** Concrete channels, for running the code *)

(** Messages [n], [n-1], ..., 1 by ID, newest first, written by user 0. *)
Fixpoint countdown (n : nat) : list Message :=
  match n with
  | O => []
  | S k => mkMessage (Z.of_nat n) 0 0 :: countdown k
  end.

Definition older_than (before : Snowflake) (m : Message) : bool :=
  match before with Some b => id m <? b | None => true end.

Definition newer_than (after : Snowflake) (m : Message) : bool :=
  match after with Some a => a <? id m | None => true end.

(** A remote side that keeps [store] (newest first), answers a page request
    newest first with the [limit] messages next to the anchor, and accepts
    every deletion without removing anything. *)
Definition channel_server (store : list Message) : Trace -> http.request -> exn + list Message :=
  fun _ r =>
    match r with
    | http.get_channel_messages _ limit around before after =>
        if truthy after then
          inr (rev (firstn (Z.to_nat limit) (rev (filter (newer_than after) store))))
        else if truthy around then
          inr (firstn (Z.to_nat limit) store)
        else
          inr (firstn (Z.to_nat limit) (filter (older_than before) store))
    | _ => inr []
    end.

(** The same, but the [k]-th deletion request (from 0) fails with [e]. *)
Definition failing_server (store : list Message) (k : nat) (e : exn)
  : Trace -> http.request -> exn + list Message :=
  fun w r =>
    if is_delete r && (length (filter is_delete (requests w)) =? k)%nat then inl e
    else channel_server store w r.

(** A remote side that answers every page request with [page], in the order
    [page] is in. *)
Definition fixed_page_server (page : list Message) : Trace -> http.request -> exn + list Message :=
  fun _ r =>
    match r with
    | http.get_channel_messages _ _ _ _ _ => inr page
    | _ => inr []
    end.

Definition cache_identity (message_data : Message) : Message := message_data.

(** The constants, the client and the clock of the concrete runs.  The
    readings are whole seconds or binary fractions of a second with few enough
    digits that every float operation of the cutoff on them is exact, so the
    rounding changes nothing there.  The cutoff of [demo_now] is 0, so every
    message of a [countdown] is recent; one second later it is [1000 << 22]
    and they are all too old. *)
Definition demo_LOADING : Z := 128.
Definition demo_EPOCH : Z := 1420070400000.
Definition demo_user : Z := 42.
Definition demo_fl (x : Q) : Q := x.
Definition demo_now : Q := 1421280000 # 1.
Definition demo_later : Q := 1421280001 # 1.

(** 14 days after the epoch and 1/2048 of a second: the float expression of
    the cutoff is worth 125/256 of a millisecond, every operation exact. *)
Definition demo_boundary : Q := (1421280000 # 1) + (1 # 2048).

(** One second later: the float is worth 1000 and 125/256 milliseconds, and
    the cutoff is [1000 << 22]. *)
Definition demo_fraction : Q := (1421280001 # 1) + (1 # 2048).

Definition demo_scan (server : Trace -> http.request -> exn + list Message)
           (fuel : nat) (a : purge_args) (now : Q) : result (list Z) * Trace :=
  purge_scan server cache_identity demo_LOADING demo_EPOCH demo_user demo_fl fuel 7 a now [].

Definition demo_purge (server : Trace -> http.request -> exn + list Message)
           (fuel : nat) (a : purge_args) (now : Q) : result Z * Trace :=
  purge server cache_identity demo_LOADING demo_EPOCH demo_user demo_fl fuel 7 a now [].

(** [purge(deletion_limit=0, search_limit=...)]. *)
Definition purge_all (search_limit : Z) : purge_args :=
  mkPurgeArgs 0 search_limit None true None None None None.

(** [purge(deletion_limit=0, search_limit=150, around=100)]. *)
Definition purge_around_args : purge_args :=
  mkPurgeArgs 0 150 None true None None (Some 100) None.

(** A channel whose newest message is a loading message of the bot. *)
Definition own_loading_store : list Message :=
  [mkMessage 3 demo_user demo_LOADING; mkMessage 2 0 0; mkMessage 1 demo_user 0].

(** ** More of [purge]: what is left of its arguments *)

(** The arguments of a purge with another [deletion_limit]. *)
Definition with_deletion_limit (a : purge_args) (n : Z) : purge_args :=
  mkPurgeArgs n (search_limit a) (predicate a) (avoid_loading_msg a)
              (purge_before a) (purge_after a) (purge_around a) (reason a).

(** The IDs [purge] is to select among the messages handed to its loop:
    those of the messages that pass its tests, cut at [deletion_limit] when
    that is positive. *)
Definition purge_choice (LOADING client_user_id : Z) (a : purge_args) (cutoff : Z)
           (seen : list Message) : list Z :=
  let ids :=
    map id (filter (selected LOADING client_user_id (purge_predicate a)
                             (avoid_loading_msg a) cutoff) seen) in
  if 0 <? deletion_limit a then firstn (Z.to_nat (deletion_limit a)) ids else ids.

(** ** Invites *)

Module InvitableMixin.

(** The arguments of [http.create_channel_invite], in call order. *)
Record create_channel_invite := mk_create_channel_invite {
  channel_id : Z;
  max_age : Z;
  max_uses : Z;
  temporary : bool;
  unique : bool;
  target_type : option Z;          (* an InviteTargetTypes member, or None *)
  target_user : Snowflake;
  target_application : Snowflake;
  reason : Reason
}.

Section create_invite.

(** The values of [InviteTargetTypes.STREAM] and
    [InviteTargetTypes.EMBEDDED_APPLICATION]; the reply of the HTTP client to
    the call; [models.Invite.from_dict]. *)
Variable STREAM : Z.
Variable EMBEDDED_APPLICATION : Z.
Variable InviteData : Type.
Variable Invite : Type.
Variable http_create_channel_invite : create_channel_invite -> exn + InviteData.
Variable Invite_from_dict : InviteData -> Invite.

(** [target_type == member]. *)
Definition is_type (target_type : option Z) (member : Z) : bool :=
  match target_type with
  | Some t => t =? member
  | None => false
  end.

(** [InvitableMixin.create_invite]: what it returns or raises, and the
    calls it made on the HTTP client. *)
Definition create_invite (self max_age max_uses : Z) (temporary unique : bool)
           (target_type : option Z) (target_user target_application : Snowflake)
           (reason : Reason)
  : (exn + Invite) * list create_channel_invite :=
  if truthy target_type && (is_type target_type STREAM && negb (truthy target_user))
  then (inl (ValueError "Stream target must include target user id."), [])
  else if truthy target_type
          && (is_type target_type EMBEDDED_APPLICATION
              && negb (truthy target_application))
  then (inl (ValueError
               "Embedded Application target must include target application id."), [])
  else if truthy target_user && truthy target_application
  then (inl (ValueError
               "Invite target must be either User or Embedded Application, not both."),
        [])
  else
    let target_type :=
      if truthy target_user then Some STREAM
      else if truthy target_application then Some EMBEDDED_APPLICATION
      else target_type in
    let call :=
      mk_create_channel_invite self max_age max_uses temporary unique target_type
                               (option_map to_snowflake target_user)
                               (option_map to_snowflake target_application)
                               reason in
    match http_create_channel_invite call with
    | inl e => (inl e, [call])
    | inr invite_data => (inr (Invite_from_dict invite_data), [call])
    end.

End create_invite.

End InvitableMixin.

(** ** The classes of the channels *)

Module classes.

(** The mixins and channel classes of the module, and the two bases they
    take from elsewhere, [SendMixin] and [DiscordObject]. *)
Inductive class :=
| SendMixin | DiscordObject
| MessageableMixin | InvitableMixin | ThreadableMixin | WebhookMixin
| BaseChannel | DMChannel | DM | DMGroup
| GuildChannel | GuildCategory | GuildStore | GuildNews | GuildText
| ThreadChannel | GuildNewsThread | GuildPublicThread | GuildPrivateThread
| VoiceChannel | GuildVoice | GuildStageVoice.

Definition class_eq_dec (a b : class) : {a = b} + {a <> b}.
Proof. decide equality. Defined.

Definition class_eqb (a b : class) : bool :=
  if class_eq_dec a b then true else false.

(** The bases in the [class] statements, in order.  The ancestors of the
    two outside bases are not in the sources; whatever they are, they come
    after the class that names them and change nothing before it. *)
Definition bases (c : class) : list class :=
  match c with
  | SendMixin | DiscordObject => []
  | MessageableMixin => [SendMixin]
  | InvitableMixin | ThreadableMixin | WebhookMixin => []
  | BaseChannel => [DiscordObject]
  | DMChannel => [BaseChannel; MessageableMixin]
  | DM => [DMChannel]
  | DMGroup => [DMChannel]
  | GuildChannel => [BaseChannel]
  | GuildCategory => [GuildChannel]
  | GuildStore => [GuildChannel]
  | GuildNews =>
      [GuildChannel; MessageableMixin; InvitableMixin; ThreadableMixin; WebhookMixin]
  | GuildText =>
      [GuildChannel; MessageableMixin; InvitableMixin; ThreadableMixin; WebhookMixin]
  | ThreadChannel => [GuildChannel; MessageableMixin; WebhookMixin]
  | GuildNewsThread => [ThreadChannel]
  | GuildPublicThread => [ThreadChannel]
  | GuildPrivateThread => [ThreadChannel]
  | VoiceChannel => [GuildChannel]
  | GuildVoice => [VoiceChannel; InvitableMixin]
  | GuildStageVoice => [GuildVoice]
  end.

(** Python's C3 linearization. *)
Definition in_tail (c : class) (seq : list class) : bool :=
  existsb (class_eqb c) (tl seq).

Definition good_head (seqs : list (list class)) (seq : list class) : option class :=
  match seq with
  | [] => None
  | c :: _ => if existsb (in_tail c) seqs then None else Some c
  end.

Fixpoint first_good_head (seqs rest : list (list class)) : option class :=
  match rest with
  | [] => None
  | seq :: rest' =>
      match good_head seqs seq with
      | Some c => Some c
      | None => first_good_head seqs rest'
      end
  end.

Definition drop_head (c : class) (seq : list class) : list class :=
  match seq with
  | [] => []
  | x :: seq' => if class_eqb x c then seq' else seq
  end.

Definition nonempty (seq : list class) : bool :=
  match seq with [] => false | _ :: _ => true end.

Fixpoint merge (fuel : nat) (seqs : list (list class)) : option (list class) :=
  match filter nonempty seqs with
  | [] => Some []
  | seqs' =>
      match fuel with
      | O => None
      | S fuel' =>
          match first_good_head seqs' seqs' with
          | None => None        (* no consistent order: TypeError *)
          | Some c =>
              match merge fuel' (map (drop_head c) seqs') with
              | Some l => Some (c :: l)
              | None => None
              end
          end
      end
  end.

Fixpoint all_some {A} (l : list (option A)) : option (list A) :=
  match l with
  | [] => Some []
  | Some a :: l' =>
      match all_some l' with Some r => Some (a :: r) | None => None end
  | None :: _ => None
  end.

Fixpoint mro (fuel : nat) (c : class) : option (list class) :=
  match fuel with
  | O => None
  | S fuel' =>
      match all_some (map (mro fuel') (bases c)) with
      | None => None
      | Some ls =>
          match merge 64 (ls ++ [bases c]) with
          | Some l => Some (c :: l)
          | None => None
          end
      end
  end.

(** [isinstance(obj, k)] for an object of class [c]. *)
Definition isinstance (c k : class) : bool :=
  match mro 8 c with
  | Some l => existsb (class_eqb k) l
  | None => false
  end.

(** Whether the body of a class of this module defines [create_invite]. *)
Definition defines_create_invite (c : class) : bool :=
  match c with
  | InvitableMixin | GuildChannel => true
  | _ => false
  end.

(** The class whose [create_invite] an object of class [c] gets. *)
Definition create_invite_of (c : class) : option class :=
  match mro 8 c with
  | Some l => find defines_create_invite l
  | None => None
  end.

(** Whether the body of a class of this module defines the property
    [members], and the class whose [members] an object of class [c] gets. *)
Definition defines_members (c : class) : bool :=
  match c with
  | DMChannel | GuildChannel | VoiceChannel => true
  | _ => false
  end.

Definition members_of (c : class) : option class :=
  match mro 8 c with
  | Some l => find defines_members l
  | None => None
  end.

(** The same for [bots] and [humans], which [GuildChannel] alone defines. *)
Definition defines_bots (c : class) : bool :=
  match c with
  | GuildChannel => true
  | _ => false
  end.

Definition bots_of (c : class) : option class :=
  match mro 8 c with
  | Some l => find defines_bots l
  | None => None
  end.

(** The classes of [TYPE_CHANNEL_MAPPING], in its order. *)
Definition TYPE_CHANNEL_MAPPING_classes : list class :=
  [GuildText; GuildNews; GuildVoice; GuildStageVoice; GuildCategory; GuildStore;
   GuildPublicThread; GuildPrivateThread; GuildNewsThread; DM; DMGroup].

End classes.

(** ** Threads *)

Module ThreadableMixin.

(** The keys of a thread record and of a thread member record that the code
    reads.  IDs are compared as the strings the API sends; [str] of an
    integer ID is one-to-one, so they are integers here. *)
Record thread := mk_thread {
  thread_id : Z;          (* thread["id"] *)
  thread_parent_id : Z    (* thread["parent_id"] *)
}.

Record thread_member := mk_thread_member {
  member_id : Z;          (* thread_member["id"], the ID of its thread *)
  member_user_id : Z      (* thread_member["user_id"] *)
}.

(** The dict a thread-list request answers with, by its keys. *)
Record threads_data := mk_threads_data {
  threads : option (list thread);          (* "threads" *)
  members : option (list thread_member);   (* "members" *)
  has_more : option bool;                  (* "has_more" *)
  data_id : option Z                       (* "id" *)
}.

(** [d.update(other)]: every key of [other] is set in [d]. *)
Definition or_else {A} (new old : option A) : option A :=
  match new with Some a => Some a | None => old end.

Definition update (d other : threads_data) : threads_data :=
  mk_threads_data (or_else (threads other) (threads d))
                  (or_else (members other) (members d))
                  (or_else (has_more other) (has_more d))
                  (or_else (data_id other) (data_id d)).

(** [d["id"] = v], [d["threads"] = v], [d["members"] = v]. *)
Definition set_id (d : threads_data) (v : Z) : threads_data :=
  mk_threads_data (threads d) (members d) (has_more d) (Some v).

Definition set_threads (d : threads_data) (v : list thread) : threads_data :=
  mk_threads_data (Some v) (members d) (has_more d) (data_id d).

Definition set_members (d : threads_data) (v : list thread_member) : threads_data :=
  mk_threads_data (threads d) (Some v) (has_more d) (data_id d).

Inductive request :=
| list_public_archived_threads (channel_id : Z) (limit before : option Z)
| list_private_archived_threads (channel_id : Z) (limit before : option Z)
| list_active_threads (guild_id : Z).

(** The first loop of [get_active_threads], from its two lists so far. *)
Fixpoint split_threads (self : Z) (l : list thread)
         (cleaned_threads_data_threads : list thread) (removed_thread_ids : list Z)
  : list thread * list Z :=
  match l with
  | [] => (cleaned_threads_data_threads, removed_thread_ids)
  | thread :: l' =>
      if thread_parent_id thread =? self then
        split_threads self l' (cleaned_threads_data_threads ++ [thread])
                      removed_thread_ids
      else
        split_threads self l' cleaned_threads_data_threads
                      (removed_thread_ids ++ [thread_id thread])
  end.

(** Its second loop. *)
Fixpoint clean_members (removed_thread_ids : list Z) (l : list thread_member)
         (cleaned_member_data_threads : list thread_member) : list thread_member :=
  match l with
  | [] => cleaned_member_data_threads
  | thread_member :: l' =>
      if negb (existsb (Z.eqb (member_id thread_member)) removed_thread_ids) then
        clean_members removed_thread_ids l' (cleaned_member_data_threads ++ [thread_member])
      else
        clean_members removed_thread_ids l' cleaned_member_data_threads
  end.

(** How a call ends: with a value, with an error of the HTTP client, or
    with the KeyError of a key the reply lacks. *)
Inductive outcome (A : Type) :=
| Returns (a : A)
| Raises (e : exn)
| RaisesKeyError (key : string).
Arguments Returns {A} a.
Arguments Raises {A} e.
Arguments RaisesKeyError {A} key.

Section threads.

(** The thread list built from a dict, [models.ThreadList.from_dict]; the
    replies of the HTTP client, given the requests made before. *)
Variable ThreadList : Type.
Variable ThreadList_from_dict : threads_data -> ThreadList.
Variable server : list request -> request -> exn + threads_data.

(** [ThreadableMixin.get_active_threads] on the channel [self] of the
    guild [guild_id]: its outcome and its requests, [w] being those made
    before. *)
Definition get_active_threads (self guild_id : Z) (w : list request)
  : outcome ThreadList * list request :=
  let r := list_active_threads guild_id in
  match server w r with
  | inl e => (Raises e, [r])
  | inr threads_data =>
      match threads threads_data with
      | None => (RaisesKeyError "threads", [r])
      | Some l =>
          let (cleaned_threads_data_threads, removed_thread_ids) :=
            split_threads self l [] [] in
          let threads_data := set_threads threads_data cleaned_threads_data_threads in
          match members threads_data with
          | None => (RaisesKeyError "members", [r])
          | Some ms =>
              let threads_data :=
                set_members threads_data (clean_members removed_thread_ids ms []) in
              (Returns (ThreadList_from_dict threads_data), [r])
          end
      end
  end.

(** [ThreadableMixin.get_archived_threads]. *)
Definition get_archived_threads (self : Z) (limit before : option Z)
           (w : list request) : outcome ThreadList * list request :=
  let r1 := list_private_archived_threads self limit before in
  match server w r1 with
  | inl e => (Raises e, [r1])
  | inr threads_data =>
      let r2 := list_public_archived_threads self limit before in
      match server (w ++ [r1]) r2 with
      | inl e => (Raises e, [r1; r2])
      | inr other =>
          let threads_data := update threads_data other in
          let threads_data := set_id threads_data self in
          (Returns (ThreadList_from_dict threads_data), [r1; r2])
      end
  end.

End threads.

End ThreadableMixin.

(** ** Group DMs *)

Module DMGroup.

Inductive request :=
| group_dm_add_recipient (channel_id user_id : Z) (access_token : string)
                         (nickname : option string)
| group_dm_remove_recipient (channel_id user_id : Z).

Inductive event :=
| get_user (user : Z)          (* self._client.cache.get_user *)
| http (r : request).

(** A user, as far as the code reads it: [user.id]; the name stands for
    what else the object holds. *)
Record User := mk_User {
  id : Z;
  username : string
}.

Section recipients.

(** The comparison [list.remove] makes between a recipient [a] and the user
    [b] to remove: [a is b or a == b].  The class of the users is not in the
    sources, and its equality is left open: the code below is read for
    whatever that comparison answers. *)
Variable User_eq : User -> User -> bool.

(** [list.remove(x)]: without the first element [y] with [y == x], or [None]
    when there is none (ValueError). *)
Fixpoint remove (x : User) (l : list User) : option (list User) :=
  match l with
  | [] => None
  | y :: l' =>
      if User_eq y x then Some l'
      else match remove x l' with
           | Some r => Some (y :: r)
           | None => None
           end
  end.

(** The cache's [get_user] and the replies of the HTTP client. *)
Variable cache_get_user : Z -> exn + User.
Variable server : list event -> request -> option exn.

(** [DMGroup.add_recipient]: the outcome, [self.recipients] after the call,
    and the events of the call. *)
Definition add_recipient (self : Z) (recipients : list User) (user : Z)
           (access_token : string) (nickname : option string) (w : list event)
  : (exn + unit) * list User * list event :=
  match cache_get_user user with
  | inl e => (inl e, recipients, [get_user user])
  | inr u =>
      let r := group_dm_add_recipient self (id u) access_token nickname in
      match server (w ++ [get_user user]) r with
      | Some e => (inl e, recipients, [get_user user; http r])
      | None => (inr tt, recipients ++ [u], [get_user user; http r])
      end
  end.

(** [DMGroup.remove_recipient]. *)
Definition remove_recipient (self : Z) (recipients : list User) (user : Z)
           (w : list event) : (exn + unit) * list User * list event :=
  match cache_get_user user with
  | inl e => (inl e, recipients, [get_user user])
  | inr u =>
      let r := group_dm_remove_recipient self (id u) in
      match server (w ++ [get_user user]) r with
      | Some e => (inl e, recipients, [get_user user; http r])
      | None =>
          match remove u recipients with
          | None =>
              (inl (ValueError "list.remove(x): x not in list"), recipients,
               [get_user user; http r])
          | Some recipients' => (inr tt, recipients', [get_user user; http r])
          end
      end
  end.

End recipients.

End DMGroup.

(** ** Who sees a guild channel, and what a category holds *)

Module GuildChannel.

(** A member of the guild, as far as the code reads it. *)
Record Member := mk_Member {
  member_id : Z;
  bot : bool
}.

Section members.

(** [self.guild.members], and for a member whether
    [Permissions.VIEW_CHANNEL in m.channel_permissions(self)]. *)
Variable guild_members : list Member.
Variable can_view : Member -> bool.

(** The comprehensions of [members], [bots] and [humans] in the body of
    [GuildChannel]. *)
Definition members : list Member :=
  filter can_view guild_members.

Definition bots : list Member :=
  filter (fun m => bot m && can_view m) guild_members.

Definition humans : list Member :=
  filter (fun m => negb (bot m) && can_view m) guild_members.

End members.

End GuildChannel.

Module VoiceChannel.

Section members.

(** [self.guild.members], and for a member whether
    [Permissions.CONNECT in m.channel_permissions(self)]. *)
Variable guild_members : list GuildChannel.Member.
Variable can_connect : GuildChannel.Member -> bool.

(** The comprehension of [members] in the body of [VoiceChannel], which
    overrides the one of [GuildChannel]. *)
Definition members : list GuildChannel.Member :=
  filter can_connect guild_members.

End members.

End VoiceChannel.

(** [channel.members] on a guild channel of class [c]: the property of the
    first class of its linearization that defines one.  [None]: not the
    property of a guild channel ([DMChannel.members] is the recipients). *)
Definition channel_members (c : classes.class)
           (guild_members : list GuildChannel.Member)
           (can_view can_connect : GuildChannel.Member -> bool)
  : option (list GuildChannel.Member) :=
  match classes.members_of c with
  | Some classes.GuildChannel => Some (GuildChannel.members guild_members can_view)
  | Some classes.VoiceChannel => Some (VoiceChannel.members guild_members can_connect)
  | _ => None
  end.

(** [channel.bots] and [channel.humans] likewise. *)
Definition channel_bots (c : classes.class)
           (guild_members : list GuildChannel.Member)
           (can_view : GuildChannel.Member -> bool)
  : option (list GuildChannel.Member) :=
  match classes.bots_of c with
  | Some classes.GuildChannel => Some (GuildChannel.bots guild_members can_view)
  | _ => None
  end.

Definition channel_humans (c : classes.class)
           (guild_members : list GuildChannel.Member)
           (can_view : GuildChannel.Member -> bool)
  : option (list GuildChannel.Member) :=
  match classes.bots_of c with
  | Some classes.GuildChannel => Some (GuildChannel.humans guild_members can_view)
  | _ => None
  end.

Module GuildCategory.

(** A channel of the guild: its class, its ID and its [parent_id]. *)
Record channel := mk_channel {
  class_of : classes.class;
  id : Z;
  parent_id : option Z
}.

(** [channel.parent_id == self.id]. *)
Definition in_category (self : Z) (c : channel) : bool :=
  match parent_id c with
  | Some p => p =? self
  | None => false
  end.

(** [GuildCategory.channels], [voice_channels], [stage_channels] and
    [text_channels] of the category [self], given [self.guild.channels]. *)
Definition channels (guild_channels : list channel) (self : Z) : list channel :=
  filter (in_category self) guild_channels.

Definition voice_channels (guild_channels : list channel) (self : Z) : list channel :=
  filter (fun c => classes.isinstance (class_of c) classes.GuildVoice
                   && negb (classes.isinstance (class_of c) classes.GuildStageVoice))
         (channels guild_channels self).

Definition stage_channels (guild_channels : list channel) (self : Z) : list channel :=
  filter (fun c => classes.isinstance (class_of c) classes.GuildStageVoice)
         (channels guild_channels self).

Definition text_channels (guild_channels : list channel) (self : Z) : list channel :=
  filter (fun c => classes.isinstance (class_of c) classes.GuildText)
         (channels guild_channels self).

End GuildCategory.

(** ** The channel factory *)

Module BaseChannel.

(** The members of [ChannelTypes] that key [TYPE_CHANNEL_MAPPING]. *)
Inductive ChannelTypes :=
| GUILD_TEXT | GUILD_NEWS | GUILD_VOICE | GUILD_STAGE_VOICE | GUILD_CATEGORY
| GUILD_STORE | GUILD_PUBLIC_THREAD | GUILD_PRIVATE_THREAD | GUILD_NEWS_THREAD
| DM | GROUP_DM.

Definition TYPE_CHANNEL_MAPPING : list (ChannelTypes * classes.class) :=
  [(GUILD_TEXT, classes.GuildText);
   (GUILD_NEWS, classes.GuildNews);
   (GUILD_VOICE, classes.GuildVoice);
   (GUILD_STAGE_VOICE, classes.GuildStageVoice);
   (GUILD_CATEGORY, classes.GuildCategory);
   (GUILD_STORE, classes.GuildStore);
   (GUILD_PUBLIC_THREAD, classes.GuildPublicThread);
   (GUILD_PRIVATE_THREAD, classes.GuildPrivateThread);
   (GUILD_NEWS_THREAD, classes.GuildNewsThread);
   (DM, classes.DM);
   (GROUP_DM, classes.DMGroup)].

(** What [from_dict_factory] does: raise TypeError, or call [from_dict] of
    a class. *)
Inductive built :=
| TypeError
| from_dict (channel_class : classes.class).

Section factory.

(** The integer value of each member of [ChannelTypes]. *)
Variable value : ChannelTypes -> Z.

(** [TYPE_CHANNEL_MAPPING.get(channel_type, None)]: the members hash and
    compare as their values, and of two entries of a dict display with equal
    keys the later one stays. *)
Definition mapping_get (channel_type : option Z) : option classes.class :=
  match channel_type with
  | None => None
  | Some t =>
      option_map snd (find (fun p => value (fst p) =? t) (rev TYPE_CHANNEL_MAPPING))
  end.

(** [BaseChannel.from_dict_factory], given [data.get("type", None)]. *)
Definition from_dict_factory (channel_type : option Z) : built :=
  match mapping_get channel_type with
  | None => TypeError
  | Some channel_class => from_dict channel_class
  end.

End factory.

End BaseChannel.

(** ** Concrete remote sides for the other calls *)

(** A channel whose [k]-th page request (from 0) fails with [e]. *)
Definition failing_page_server (store : list Message) (k : nat) (e : exn)
  : Trace -> http.request -> exn + list Message :=
  fun w r =>
    if is_get r && (length (filter is_get (requests w)) =? k)%nat then inl e
    else channel_server store w r.

(** An HTTP client that accepts every invite, with nothing to say. *)
Definition demo_invites (call : InvitableMixin.create_channel_invite) : exn + unit :=
  inr tt.

(** Two threads under channel 7, one under channel 8, and a member of each. *)
Definition demo_threads : list ThreadableMixin.thread :=
  [ThreadableMixin.mk_thread 11 7; ThreadableMixin.mk_thread 12 8;
   ThreadableMixin.mk_thread 13 7].

Definition demo_thread_members : list ThreadableMixin.thread_member :=
  [ThreadableMixin.mk_thread_member 11 1; ThreadableMixin.mk_thread_member 12 2;
   ThreadableMixin.mk_thread_member 13 3].

(** A remote side with these as its active threads, thread 21 as the private
    archived one and thread 22 as the public archived one. *)
Definition demo_thread_server (w : list ThreadableMixin.request)
           (r : ThreadableMixin.request) : exn + ThreadableMixin.threads_data :=
  match r with
  | ThreadableMixin.list_active_threads _ =>
      inr (ThreadableMixin.mk_threads_data (Some demo_threads)
             (Some demo_thread_members) None None)
  | ThreadableMixin.list_private_archived_threads _ _ _ =>
      inr (ThreadableMixin.mk_threads_data (Some [ThreadableMixin.mk_thread 21 7])
             (Some []) (Some false) None)
  | ThreadableMixin.list_public_archived_threads _ _ _ =>
      inr (ThreadableMixin.mk_threads_data (Some [ThreadableMixin.mk_thread 22 7])
             (Some []) (Some false) None)
  end.

(** Users that are equal when their IDs are, a cache that knows every user,
    and an HTTP client that accepts. *)
Definition demo_User_eq (a b : DMGroup.User) : bool :=
  DMGroup.id a =? DMGroup.id b.

Definition demo_get_user (user : Z) : exn + DMGroup.User :=
  inr (DMGroup.mk_User user "user").

Definition demo_dm_server (w : list DMGroup.event) (r : DMGroup.request)
  : option exn := None.

(** ** Sorting *)

Lemma insert_asc_perm m l : Permutation (m :: l) (insert_asc m l).
Proof.
  induction l as [|x l IH]; simpl; [reflexivity|].
  destruct (id m <=? id x); [reflexivity|].
  rewrite perm_swap. now constructor.
Qed.

Lemma sort_asc_perm l : Permutation l (sort_asc l).
Proof.
  induction l as [|x l IH]; simpl; [constructor|].
  rewrite <- insert_asc_perm. now constructor.
Qed.

Lemma insert_asc_sorted m l : ascending l -> ascending (insert_asc m l).
Proof.
  unfold ascending. induction 1 as [|x l Hs IH Hx]; simpl.
  - repeat constructor.
  - destruct (id m <=? id x) eqn:E.
    + apply Z.leb_le in E. constructor; [now constructor|].
      constructor; [exact E|].
      eapply Forall_impl; [|exact Hx]. simpl; intros; lia.
    + apply Z.leb_gt in E. constructor; [exact IH|].
      eapply Permutation_Forall; [apply insert_asc_perm|].
      constructor; [lia | exact Hx].
Qed.

Lemma sort_asc_sorted l : ascending (sort_asc l).
Proof.
  induction l; simpl; [constructor | now apply insert_asc_sorted].
Qed.

Lemma insert_desc_perm m l : Permutation (m :: l) (insert_desc m l).
Proof.
  induction l as [|x l IH]; simpl; [reflexivity|].
  destruct (id x <=? id m); [reflexivity|].
  rewrite perm_swap. now constructor.
Qed.

Lemma sort_desc_perm l : Permutation l (sort_desc l).
Proof.
  induction l as [|x l IH]; simpl; [constructor|].
  rewrite <- insert_desc_perm. now constructor.
Qed.

Lemma insert_desc_sorted m l : descending l -> descending (insert_desc m l).
Proof.
  unfold descending. induction 1 as [|x l Hs IH Hx]; simpl.
  - repeat constructor.
  - destruct (id x <=? id m) eqn:E.
    + apply Z.leb_le in E. constructor; [now constructor|].
      constructor; [exact E|].
      eapply Forall_impl; [|exact Hx]. simpl; intros; lia.
    + apply Z.leb_gt in E. constructor; [exact IH|].
      eapply Permutation_Forall; [apply insert_desc_perm|].
      constructor; [lia | exact Hx].
Qed.

Lemma sort_desc_sorted l : descending (sort_desc l).
Proof.
  induction l; simpl; [constructor | now apply insert_desc_sorted].
Qed.

(** ** Popping from the back and slicing from the front *)

Lemma pop_snoc l x : pop (l ++ [x]) = Some (x, l).
Proof.
  unfold pop. rewrite rev_app_distr. simpl. now rewrite rev_involutive.
Qed.

Lemma pop_many_rev n : forall r,
  (n <= length r)%nat ->
  pop_many n (rev r) = (firstn n r, rev (skipn n r)).
Proof.
  induction n as [|n IH]; intros r Hn; [reflexivity|].
  destruct r as [|x r]; [simpl in Hn; lia|].
  cbn [pop_many rev]. rewrite pop_snoc, IH by (simpl in Hn; lia).
  reflexivity.
Qed.

Lemma firstn_min_length {A} n (l : list A) :
  firstn (Nat.min n (length l)) l = firstn n l.
Proof.
  destruct (Nat.le_ge_cases n (length l)) as [H|H].
  - now rewrite Nat.min_l.
  - rewrite Nat.min_r, firstn_all by exact H. now rewrite firstn_all2.
Qed.

Lemma skipn_min_length {A} n (l : list A) :
  skipn (Nat.min n (length l)) l = skipn n l.
Proof.
  destruct (Nat.le_ge_cases n (length l)) as [H|H].
  - now rewrite Nat.min_l.
  - rewrite Nat.min_r, skipn_all by exact H. now rewrite skipn_all2.
Qed.

Lemma chunks_fuel n : forall fuel1 fuel2 l,
  (0 < n)%nat -> (length l <= fuel1)%nat -> (length l <= fuel2)%nat ->
  chunks fuel1 n l = chunks fuel2 n l.
Proof.
  induction fuel1 as [|f1 IH]; intros fuel2 l Hn H1 H2.
  - destruct l; [now destruct fuel2 | simpl in H1; lia].
  - destruct l as [|x l]; [now destruct fuel2|].
    destruct fuel2 as [|f2]; [simpl in H2; lia|].
    cbn [chunks]. f_equal.
    assert (length (skipn n (x :: l)) < length (x :: l))%nat
      by (rewrite length_skipn; cbn [length]; lia).
    apply IH; cbn [length] in *; lia.
Qed.

Lemma chunks_concat n : forall fuel l,
  (0 < n)%nat -> (length l <= fuel)%nat -> concat (chunks fuel n l) = l.
Proof.
  induction fuel as [|f IH]; intros l Hn Hl.
  - destruct l; [reflexivity | simpl in Hl; lia].
  - destruct l as [|x l]; [reflexivity|].
    cbn [chunks concat].
    assert (length (skipn n (x :: l)) < length (x :: l))%nat
      by (rewrite length_skipn; cbn [length]; lia).
    rewrite IH by (cbn [length] in *; lia). apply firstn_skipn.
Qed.

(** The sizes of the slices: full ones, then the remainder if there is one. *)
Lemma chunks_sizes n : forall fuel l,
  (0 < n)%nat -> (length l <= fuel)%nat ->
  map (@length Z) (chunks fuel n l) =
    repeat n (length l / n) ++
    (if (length l mod n =? 0)%nat then [] else [(length l mod n)%nat]).
Proof.
  induction fuel as [|f IH]; intros l Hn Hl.
  - destruct l; [|simpl in Hl; lia]. simpl.
    rewrite Nat.Div0.div_0_l, Nat.Div0.mod_0_l. reflexivity.
  - destruct l as [|x l].
    { simpl. rewrite Nat.Div0.div_0_l, Nat.Div0.mod_0_l. reflexivity. }
    remember (x :: l) as xs eqn:Exs.
    assert (Hpos : (0 < length xs)%nat) by (subst; simpl; lia).
    assert (chunks (S f) n xs = firstn n xs :: chunks f n (skipn n xs)) as ->
      by (subst; reflexivity).
    cbn [map].
    rewrite IH by (try rewrite length_skipn; lia).
    rewrite length_skipn, length_firstn.
    destruct (Nat.le_gt_cases n (length xs)) as [Hge|Hlt].
    + rewrite Nat.min_l by exact Hge.
      assert (E : length xs = (length xs - n + 1 * n)%nat) by lia.
      assert (Ed : (length xs / n = S ((length xs - n) / n))%nat)
        by (rewrite E at 1; rewrite Nat.div_add by lia; lia).
      assert (Em : (length xs mod n = (length xs - n) mod n)%nat)
        by (rewrite E at 1; now rewrite Nat.Div0.mod_add).
      rewrite Ed, Em. reflexivity.
    + rewrite Nat.min_r by lia.
      replace (length xs - n)%nat with 0%nat by lia.
      rewrite Nat.Div0.div_0_l, Nat.Div0.mod_0_l.
      rewrite Nat.div_small, Nat.mod_small by exact Hlt.
      destruct (Nat.eqb_spec (length xs) 0); [lia | reflexivity].
Qed.

Lemma purge_batches_concat acc : concat (purge_batches acc) = rev acc.
Proof.
  unfold purge_batches. apply chunks_concat; [lia | now rewrite length_rev].
Qed.

Lemma purge_batches_sizes acc :
  map (@length Z) (purge_batches acc) =
    repeat 100%nat (length acc / 100) ++
    (if (length acc mod 100 =? 0)%nat then [] else [(length acc mod 100)%nat]).
Proof.
  unfold purge_batches.
  rewrite chunks_sizes by (try rewrite length_rev; lia).
  now rewrite length_rev.
Qed.

(** ** Properties of the code, for any remote side and any cache *)

Section Properties.

Variable server : Trace -> http.request -> exn + list Message.
Variable place_message_data : Message -> Message.
Variable LOADING : Z.
Variable DISCORD_EPOCH : Z.
Variable client_user_id : Z.
Variable fl : Q -> Q.

Local Notation get_messages' := (get_messages server place_message_data).
Local Notation fetch' := (fetch server place_message_data).
Local Notation anext' := (anext server place_message_data).
Local Notation async_for' := (async_for server place_message_data).
Local Notation flatten' := (flatten server place_message_data).
Local Notation delete_messages' := (delete_messages server).
Local Notation purge_drain' := (purge_drain server).
Local Notation is_own_loading' := (is_own_loading LOADING client_user_id).
Local Notation cutoff' := (fourteen_days_ago DISCORD_EPOCH fl).
Local Notation purge_scan' :=
  (purge_scan server place_message_data LOADING DISCORD_EPOCH client_user_id fl).
Local Notation purge' :=
  (purge server place_message_data LOADING DISCORD_EPOCH client_user_id fl).

(** *** The requests of one call *)

Lemma mapM_cache_place l w :
  mapM (cache_place place_message_data) l w =
    (Return (map place_message_data l), map Cache l).
Proof.
  revert w. induction l as [|x l IH]; intros w; [reflexivity|].
  cbn [mapM]. unfold bind at 1. cbn [cache_place].
  unfold bind at 1. rewrite IH. cbn. now rewrite app_nil_r.
Qed.

Lemma get_messages_run self limit around before after w :
  limit <= 100 ->
  get_messages' self limit around before after w =
    let r := http.get_channel_messages self limit around before after in
    match server w r with
    | inl e => (Raise e, [Http r])
    | inr data => (Return (map place_message_data data), Http r :: map Cache data)
    end.
Proof.
  intros Hl. unfold get_messages.
  destruct (Z.ltb_spec 100 limit); [lia|].
  unfold bind, http_request. cbn zeta.
  destruct (server w _); [reflexivity|].
  now rewrite mapM_cache_place.
Qed.

Lemma get_limit_le h : get_limit h <= 100.
Proof.
  unfold get_limit. destruct (0 <? _); lia.
Qed.

Lemma delete_messages_run self b reason w :
  delete_messages' self b reason w =
    (match server w (batch_request self reason b) with
     | inl e => Raise e
     | inr _ => Return tt
     end, [Http (batch_request self reason b)]).
Proof.
  unfold delete_messages, delete_message, batch_request, to_snowflake.
  rewrite map_id.
  destruct (length b =? 1)%nat; unfold bind, http_request;
    destruct (server w _); reflexivity.
Qed.

Lemma fetch_run h w :
  fetch' h w =
    match server w (fetch_request h) with
    | inl e => (Raise e, [Http (fetch_request h)])
    | inr data =>
        (Return (fetch_page place_message_data h data, fetch_state h),
         Http (fetch_request h) :: map Cache data)
    end.
Proof.
  unfold fetch, fetch_request, fetch_page, fetch_state.
  destruct (truthy (after h)) eqn:Ea; [|destruct (truthy (around h)) eqn:Er].
  - destruct (last h) eqn:El; unfold bind;
      rewrite get_messages_run by apply get_limit_le; cbn zeta;
      cbn [last set_last channel]; rewrite ?El;
      unfold get_limit; cbn [_limit total_retrieved set_last];
      destruct (server w _); cbn; rewrite ?app_nil_r; reflexivity.
  - unfold bind. rewrite get_messages_run by apply get_limit_le. cbn zeta.
    destruct (server w _); cbn; rewrite ?app_nil_r; reflexivity.
  - destruct (truthy (before h)) eqn:Eb; [destruct (last h) eqn:El|];
      unfold bind; rewrite get_messages_run by apply get_limit_le; cbn zeta;
      cbn [last set_last channel]; rewrite ?El;
      unfold get_limit; cbn [_limit total_retrieved set_last];
      destruct (last h); destruct (server w _); cbn; rewrite ?app_nil_r;
      try reflexivity; try discriminate.
Qed.

(** *** Page order *)

Lemma sort_asc_nil l : sort_asc l = [] -> l = [].
Proof.
  intros H. apply Permutation_nil. rewrite <- H. symmetry. apply sort_asc_perm.
Qed.

Lemma sort_desc_nil l : sort_desc l = [] -> l = [].
Proof.
  intros H. apply Permutation_nil. rewrite <- H. symmetry. apply sort_desc_perm.
Qed.

(** C8: [get_messages] with [limit > 100] raises the invalid-argument error
    before anything is asked of the HTTP client or of the cache; with
    [limit <= 100] the check lets the call through: the request goes out, and
    an error can then only be the one the remote side answered with. *)
Theorem get_messages_limit_check self limit around before after w :
  (100 < limit ->
   get_messages server place_message_data self limit around before after w =
     (Raise (ValueError "You cannot fetch more than 100 messages at once."), [])) /\
  (limit <= 100 ->
   let r := http.get_channel_messages self limit around before after in
   exists rest,
     snd (get_messages server place_message_data self limit around before after w) = Http r :: rest /\
     forall e, fst (get_messages server place_message_data self limit around before after w) = Raise e ->
               server w r = inl e).
Proof.
  split.
  - intros H. unfold get_messages.
    destruct (Z.ltb_spec 100 limit); [reflexivity | lia].
  - intros H r. rewrite get_messages_run by exact H. cbn zeta. fold r.
    destruct (server w r) as [e|data].
    + exists []. split; [reflexivity|]. cbn. intros e' [= ->]. reflexivity.
    + exists (map Cache data). split; [reflexivity|]. cbn. discriminate.
Qed.

(** C2 (as amended): a page returned by [fetch] holds the cached messages of
    the reply; it is sorted ascending by ID when [after] is truthy, sorted
    descending by ID when neither [after] nor [around] is truthy (the
    [before] and default mode), and left in the order of the reply when
    [around] is the mode. *)
Theorem fetch_page_order h w page h' evs :
  fetch' h w = (Return (page, h'), evs) ->
  exists data,
    server w (fetch_request h) = inr data /\
    Permutation (map place_message_data data) page /\
    (truthy (after h) = true -> ascending page) /\
    (truthy (after h) = false -> truthy (around h) = false -> descending page) /\
    (truthy (after h) = false -> truthy (around h) = true ->
     page = map place_message_data data).
Proof.
  rewrite fetch_run. destruct (server w (fetch_request h)) as [e|data]; [discriminate|].
  intros [= <- <- <-]. exists data. split; [reflexivity|].
  unfold fetch_page.
  destruct (truthy (after h)); [|destruct (truthy (around h))].
  - split; [apply sort_asc_perm|].
    split; [intros _; apply sort_asc_sorted|]. split; discriminate.
  - split; [reflexivity|].
    split; [discriminate|]. split; [discriminate | reflexivity].
  - split; [apply sort_desc_perm|].
    split; [discriminate|]. split; [|discriminate].
    intros _ _. apply sort_desc_sorted.
Qed.

(** *** The delete phase *)

Local Notation delete_batches' := (delete_batches server).

Lemma purge_drain_batches self reason : forall fuel r w,
  (length r <= fuel)%nat ->
  purge_drain' fuel self (rev r) reason w =
    delete_batches' self (chunks fuel 100 r) reason w.
Proof.
  induction fuel as [|f IH]; intros r w Hl.
  - destruct r; [reflexivity | simpl in Hl; lia].
  - destruct r as [|x r]; [reflexivity|].
    remember (x :: r) as xs eqn:Exs.
    assert (Hlen : (0 < length xs)%nat) by (subst; simpl; lia).
    cbn [purge_drain].
    destruct (rev xs) as [|y ys] eqn:Er.
    { apply (f_equal (@length Z)) in Er. rewrite length_rev in Er.
      simpl in Er. lia. }
    rewrite <- Er, length_rev.
    rewrite pop_many_rev by apply Nat.le_min_r.
    rewrite firstn_min_length, skipn_min_length.
    assert (chunks (S f) 100 xs = firstn 100 xs :: chunks f 100 (skipn 100 xs)) as ->
      by (subst; reflexivity).
    cbn [delete_batches]. unfold bind.
    destruct (delete_messages' self (firstn 100 xs) reason w) as [[[]|e|] evs];
      try reflexivity.
    rewrite IH by (rewrite length_skipn; lia). reflexivity.
Qed.

Lemma purge_drain_is_batches self acc reason w :
  purge_drain' (length acc) self acc reason w =
    delete_batches' self (purge_batches acc) reason w.
Proof.
  unfold purge_batches. rewrite <- (rev_involutive acc) at 2.
  rewrite <- length_rev.
  apply purge_drain_batches. reflexivity.
Qed.

(** How far a run of batches gets: all of them, or up to the first one the
    remote side refuses. *)
Lemma delete_batches_run self reason : forall bs w,
  let reqs := map (batch_request self reason) bs in
  exists k,
    (k <= length bs)%nat /\
    snd (delete_batches' self bs reason w) = map Http (firstn k reqs) /\
    ((fst (delete_batches' self bs reason w) = Return tt /\ k = length bs /\
      forall i r, nth_error reqs i = Some r ->
                  exists d, server (w ++ map Http (firstn i reqs)) r = inr d)
     \/
     (exists j r e,
        k = S j /\ nth_error reqs j = Some r /\
        (forall i r', (i < j)%nat -> nth_error reqs i = Some r' ->
                      exists d, server (w ++ map Http (firstn i reqs)) r' = inr d) /\
        server (w ++ map Http (firstn j reqs)) r = inl e /\
        fst (delete_batches' self bs reason w) = Raise e)).
Proof.
  induction bs as [|b bs IH]; intros w reqs.
  - exists 0%nat. split; [lia|]. split; [reflexivity|]. left.
    split; [reflexivity|]. split; [reflexivity|].
    intros [|i] r; discriminate.
  - cbn [delete_batches]. unfold bind. rewrite delete_messages_run.
    subst reqs. cbn [map]. set (r0 := batch_request self reason b).
    set (reqs := map (batch_request self reason) bs).
    destruct (server w r0) as [e|d] eqn:Es.
    + exists 1%nat. split; [simpl; lia|]. split; [reflexivity|]. right.
      exists 0%nat, r0, e. cbn. rewrite app_nil_r.
      repeat split; auto. intros i r' Hi. lia.
    + destruct (IH (w ++ [Http r0])) as (k & Hk & Hev & Hres). fold reqs in Hev, Hres.
      destruct (delete_batches' self bs reason (w ++ [Http r0])) as [o evs] eqn:Ed.
      cbn [fst snd] in *. exists (S k). split; [simpl; lia|].
      split; [subst evs; reflexivity|].
      destruct Hres as [(Ho & Hkl & Hall) | (j & r & e & Hj & Hn & Hprev & Hs & Ho)].
      * left. split; [exact Ho|]. split; [simpl; lia|].
        intros [|i] r Hr.
        -- cbn in Hr. injection Hr as <-. exists d. cbn. now rewrite app_nil_r.
        -- cbn in Hr. destruct (Hall i r Hr) as [d' Hd']. exists d'.
           cbn. now rewrite <- app_assoc in Hd'.
      * right. exists (S j), r, e. split; [lia|]. split; [exact Hn|].
        split; [|split; [|exact Ho]].
        -- intros [|i] r' Hi Hr'.
           ++ cbn in Hr'. injection Hr' as <-. exists d. cbn. now rewrite app_nil_r.
           ++ cbn in Hr'. destruct (Hprev i r' ltac:(lia) Hr') as [d' Hd']. exists d'.
              cbn. now rewrite <- app_assoc in Hd'.
        -- cbn. now rewrite <- app_assoc in Hs.
Qed.

(** *** The iterator and the loop over it *)

Lemma requests_app a b : requests (a ++ b) = requests a ++ requests b.
Proof.
  induction a as [|[r|m] a IH]; simpl; [reflexivity| |]; now rewrite ?IH.
Qed.

Lemma requests_Cache l : requests (map Cache l) = [].
Proof. induction l; simpl; auto. Qed.

Lemma requests_Http rs : requests (map Http rs) = rs.
Proof. induction rs; simpl; [reflexivity | now f_equal]. Qed.

Lemma anext_run h w :
  anext' h w =
    match _queue h with
    | m :: q => (Return (Some (m, yield h m q)), [])
    | [] =>
        if _continue h then
          match server w (fetch_request h) with
          | inl e => (Raise e, [Http (fetch_request h)])
          | inr data =>
              (Return match fetch_page place_message_data h data with
                      | [] => None
                      | m :: q => Some (m, yield (fetch_state h) m q)
                      end,
               Http (fetch_request h) :: map Cache data)
          end
        else (Return None, [])
    end.
Proof.
  unfold anext. destruct (_queue h); [|reflexivity].
  destruct (_continue h); [|reflexivity].
  unfold bind. rewrite fetch_run.
  destruct (server w (fetch_request h)); [reflexivity|].
  cbn [fst snd]. destruct (fetch_page _ h l); cbn; now rewrite app_nil_r.
Qed.

Lemma is_get_fetch_request h : is_get (fetch_request h) = true.
Proof.
  unfold fetch_request. destruct (truthy (after h)); [reflexivity|].
  destruct (truthy (around h)); reflexivity.
Qed.

(** One step of the iterator asks for at most one page and nothing else. *)
Lemma anext_requests h w :
  requests (snd (anext' h w)) = [] \/
  requests (snd (anext' h w)) = [fetch_request h].
Proof.
  rewrite anext_run. destruct (_queue h); [|now left].
  destruct (_continue h); [|now left].
  destruct (server w (fetch_request h)); right; cbn; [reflexivity|].
  now rewrite requests_Cache.
Qed.

Lemma async_for_unfold {S : Type} fuel h (body : Message -> S -> bool * S) s w :
  async_for' (Datatypes.S fuel) h body s w =
    match anext' h w with
    | (Return None, evs) => (Return s, evs)
    | (Return (Some (m, h')), evs) =>
        if fst (body m s) then (Return (snd (body m s)), evs)
        else (fst (async_for' fuel h' body (snd (body m s)) (w ++ evs)),
              evs ++ snd (async_for' fuel h' body (snd (body m s)) (w ++ evs)))
    | (Raise e, evs) => (Raise e, evs)
    | (Timeout, evs) => (Timeout, evs)
    end.
Proof.
  cbn [async_for]. unfold bind.
  destruct (anext' h w) as [[[[m h']|]|e|] evs]; try reflexivity.
  - destruct (body m s) as [[] s']; cbn [fst snd].
    + cbn. now rewrite app_nil_r.
    + now destruct (async_for' fuel h' body s' (w ++ evs)).
  - cbn. now rewrite app_nil_r.
Qed.

(** The scan only ever asks for pages. *)
Lemma async_for_requests_get {S : Type} (body : Message -> S -> bool * S) :
  forall fuel h s w,
    Forall (fun r => is_get r = true) (requests (snd (async_for' fuel h body s w))).
Proof.
  induction fuel as [|f IH]; intros h s w; [constructor|].
  rewrite async_for_unfold.
  assert (Hn : Forall (fun r => is_get r = true) (requests (snd (anext' h w)))).
  { destruct (anext_requests h w) as [-> | ->]; repeat constructor.
    apply is_get_fetch_request. }
  destruct (anext' h w) as [[[[m h']|]|e|] evs]; cbn [snd] in *; try exact Hn.
  destruct (fst (body m s)); cbn [snd]; [exact Hn|].
  rewrite requests_app. apply Forall_app. split; [exact Hn | apply IH].
Qed.

Lemma get_requests_delete_nothing rs :
  Forall (fun r => is_get r = true) rs ->
  filter is_delete rs = [] /\ flat_map request_ids rs = [].
Proof.
  induction 1 as [|r rs Hr _ [IH1 IH2]]; [split; reflexivity|].
  destruct r; try discriminate. cbn. now split.
Qed.

Lemma watch_eq {S : Type} (body : Message -> S -> bool * S) m s seen :
  watch body m (s, seen) = (fst (body m s), (snd (body m s), seen ++ [m])).
Proof. unfold watch. cbn. now destruct (body m s). Qed.

(** Watching a loop does not change it. *)
Lemma async_for_watch {S : Type} (body : Message -> S -> bool * S) :
  forall fuel h s seen w,
    map_result fst (fst (async_for' fuel h (watch body) (s, seen) w)) =
      fst (async_for' fuel h body s w) /\
    snd (async_for' fuel h (watch body) (s, seen) w) =
      snd (async_for' fuel h body s w).
Proof.
  induction fuel as [|f IH]; intros h s seen w; [split; reflexivity|].
  rewrite !async_for_unfold.
  destruct (anext' h w) as [[[[m h']|]|e|] evs]; try (split; reflexivity).
  rewrite watch_eq. cbn [fst snd].
  destruct (body m s) as [[] s'] eqn:Eb; cbn [fst snd]; [split; reflexivity|].
  destruct (IH h' s' (seen ++ [m]) (w ++ evs)) as [H1 H2].
  split; [exact H1 | now rewrite H2].
Qed.

(** The state a loop ends in is the fold of its body over what it was
    handed. *)
Lemma async_for_watch_fold {S : Type} (body : Message -> S -> bool * S) :
  forall fuel h s seen w s' seen' evs,
    async_for' fuel h (watch body) (s, seen) w = (Return (s', seen'), evs) ->
    exists new, seen' = seen ++ new /\ s' = loop_fold body new s.
Proof.
  induction fuel as [|f IH]; intros h s seen w s' seen' evs; [discriminate|].
  rewrite async_for_unfold.
  destruct (anext' h w) as [[[[m h']|]|e|] evs0]; try discriminate.
  - rewrite watch_eq. cbn [fst snd].
    destruct (body m s) as [[] s1] eqn:Eb; cbn [fst snd].
    + intros [= <- <- <-]. exists [m]. split; [reflexivity|].
      cbn. now rewrite Eb.
    + destruct (async_for' f h' (watch body) (s1, seen ++ [m]) (w ++ evs0))
        as [r evs1] eqn:Ea.
      cbn [fst snd]. intros [= -> <-].
      destruct (IH _ _ _ _ _ _ _ Ea) as (new & -> & ->).
      exists (m :: new). split; [now rewrite <- app_assoc|].
      cbn. now rewrite Eb.
  - intros [= <- <- <-]. exists []. split; [now rewrite app_nil_r | reflexivity].
Qed.

Lemma async_for_fold {S : Type} (body : Message -> S -> bool * S) fuel h s w s' evs :
  async_for' fuel h body s w = (Return s', evs) ->
  exists seen,
    async_for' fuel h (watch body) (s, []) w = (Return (s', seen), evs) /\
    s' = loop_fold body seen s.
Proof.
  intros H. destruct (async_for_watch body fuel h s [] w) as [H1 H2].
  rewrite H in H1, H2. cbn [fst snd] in H1, H2.
  destruct (async_for' fuel h (watch body) (s, []) w) as [[[s1 seen]|e|] evs1] eqn:Ew;
    cbn in H1, H2; try discriminate.
  injection H1 as ->. subst evs1. exists seen. split; [reflexivity|].
  destruct (async_for_watch_fold _ _ _ _ _ _ _ _ _ Ew) as (new & Hn & Hs).
  cbn in Hn. now subst.
Qed.

(** *** The scan of [purge] *)

Local Notation selected' := (selected LOADING client_user_id).
Local Notation purge_body' := (purge_body LOADING client_user_id).

Lemma purge_body_eq dl pred avoid cutoff m acc :
  purge_body' dl pred avoid cutoff m acc =
    if negb (dl =? 0) && (Z.of_nat (length acc) =? dl) then (true, acc)
    else (false, if selected' pred avoid cutoff m then acc ++ [id m] else acc).
Proof.
  unfold purge_body, selected.
  destruct (negb (dl =? 0) && _); [reflexivity|].
  destruct (pred m); [|reflexivity]. cbn [negb andb].
  destruct (avoid && _); [reflexivity|]. cbn [negb andb].
  now destruct (id m <? cutoff).
Qed.

(** The accumulator after a run of the loop body: what it held, then the
    IDs of the selected messages among those examined, in order. *)
Lemma purge_fold_selects dl pred avoid cutoff : forall msgs acc,
  exists n,
    (n <= length msgs)%nat /\
    loop_fold (purge_body' dl pred avoid cutoff) msgs acc =
      acc ++ map id (filter (selected' pred avoid cutoff) (firstn n msgs)) /\
    (dl = 0 -> n = length msgs).
Proof.
  induction msgs as [|m msgs IH]; intros acc.
  - exists 0%nat. cbn. rewrite app_nil_r. auto.
  - cbn [loop_fold]. rewrite purge_body_eq.
    destruct (negb (dl =? 0) && _) eqn:Eb.
    + exists 0%nat. cbn. rewrite app_nil_r. repeat split; [lia|].
      intros ->. discriminate.
    + destruct (IH (if selected' pred avoid cutoff m then acc ++ [id m] else acc))
        as (n & Hn & Hf & H0).
      exists (S n). split; [simpl; lia|]. split; [|intros E; simpl; now rewrite H0].
      rewrite Hf. cbn [firstn filter].
      destruct (selected' pred avoid cutoff m); [|reflexivity].
      cbn. now rewrite <- app_assoc.
Qed.

Lemma purge_fold_bound dl pred avoid cutoff : forall msgs acc,
  0 < dl -> Z.of_nat (length acc) <= dl ->
  Z.of_nat (length (loop_fold (purge_body' dl pred avoid cutoff) msgs acc)) <= dl.
Proof.
  induction msgs as [|m msgs IH]; intros acc Hd Ha; [exact Ha|].
  cbn [loop_fold]. rewrite purge_body_eq.
  destruct (Z.eqb_spec dl 0); [lia|]. cbn [negb andb].
  destruct (Z.eqb_spec (Z.of_nat (length acc)) dl); [exact Ha|].
  apply IH; [exact Hd|].
  destruct (selected' pred avoid cutoff m); [|exact Ha].
  rewrite length_app. simpl. lia.
Qed.

(** What the scan returns, in terms of the messages the iterator handed to
    the loop. *)
Lemma purge_scan_selects fuel self a now w acc evs :
  purge_scan' fuel self a now w = (Return acc, evs) ->
  exists seen n,
    async_for' fuel (purge_history self a)
      (watch (purge_body' (deletion_limit a) (purge_predicate a)
                          (avoid_loading_msg a) (cutoff' now)))
      ([], []) w = (Return (acc, seen), evs) /\
    (n <= length seen)%nat /\
    acc = map id (filter (selected' (purge_predicate a) (avoid_loading_msg a)
                                    (cutoff' now))
                         (firstn n seen)) /\
    (deletion_limit a = 0 -> n = length seen).
Proof.
  unfold purge_scan. intros H.
  apply async_for_fold in H. destruct H as (seen & Hw & Hacc).
  destruct (purge_fold_selects (deletion_limit a) (purge_predicate a)
              (avoid_loading_msg a) (cutoff' now) seen []) as (n & Hn & Hf & H0).
  exists seen, n. split; [exact Hw|]. split; [exact Hn|].
  split; [|exact H0]. rewrite Hacc. exact Hf.
Qed.

(** *** [purge] as its two phases *)

Lemma purge_run fuel self a now w :
  purge' fuel self a now w =
    match purge_scan' fuel self a now w with
    | (Return acc, evs1) =>
        (map_result (fun _ => Z.of_nat (length acc))
           (fst (delete_batches' self (purge_batches acc) (reason a) (w ++ evs1))),
         evs1 ++ snd (delete_batches' self (purge_batches acc) (reason a) (w ++ evs1)))
    | (Raise e, evs1) => (Raise e, evs1)
    | (Timeout, evs1) => (Timeout, evs1)
    end.
Proof.
  unfold purge. unfold bind at 1.
  destruct (purge_scan' fuel self a now w) as [[acc|e|] evs1]; try reflexivity.
  unfold bind. rewrite purge_drain_is_batches.
  destruct (delete_batches' self (purge_batches acc) (reason a) (w ++ evs1))
    as [[[]|e|] evs2]; cbn; try reflexivity.
  now rewrite app_nil_r.
Qed.

Lemma request_ids_batch self reason b :
  b <> [] -> request_ids (batch_request self reason b) = b.
Proof.
  unfold batch_request. destruct b as [|x [|y b]]; cbn; congruence.
Qed.

Lemma deleted_ids_app a b : deleted_ids (a ++ b) = deleted_ids a ++ deleted_ids b.
Proof. unfold deleted_ids. now rewrite requests_app, flat_map_app. Qed.

Lemma scan_deletes_nothing fuel self a now w :
  filter is_delete (requests (snd (purge_scan' fuel self a now w))) = [] /\
  deleted_ids (snd (purge_scan' fuel self a now w)) = [].
Proof.
  apply get_requests_delete_nothing. apply async_for_requests_get.
Qed.

Lemma batches_ids_incl self reason : forall bs k x,
  In x (flat_map request_ids (firstn k (map (batch_request self reason) bs))) ->
  In x (concat bs).
Proof.
  induction bs as [|b bs IH]; intros k x; [now rewrite firstn_nil|].
  destruct k; [contradiction|]. cbn [map firstn flat_map concat].
  rewrite !in_app_iff. intros [H|H]; [left | right; eauto].
  destruct b as [|y b]; [contradiction|].
  now rewrite request_ids_batch in H.
Qed.

(** Whatever [purge] asks to delete was accumulated by its scan. *)
Lemma purge_deletes_from_scan fuel self a now w x :
  In x (deleted_ids (snd (purge' fuel self a now w))) ->
  exists acc evs, purge_scan' fuel self a now w = (Return acc, evs) /\ In x acc.
Proof.
  rewrite purge_run.
  pose proof (scan_deletes_nothing fuel self a now w) as [_ Hscan].
  destruct (purge_scan' fuel self a now w) as [[acc|e|] evs1] eqn:Es;
    cbn [snd] in *; try (rewrite Hscan; contradiction).
  rewrite deleted_ids_app, Hscan. cbn [app]. intros Hx.
  exists acc, evs1. split; [reflexivity|].
  destruct (delete_batches_run self (reason a) (purge_batches acc) (w ++ evs1))
    as (k & _ & Hev & _).
  rewrite Hev in Hx. unfold deleted_ids in Hx. rewrite requests_Http in Hx.
  apply batches_ids_incl in Hx. rewrite purge_batches_concat in Hx.
  now apply in_rev.
Qed.

Lemma selected_recent pred avoid cutoff m :
  selected' pred avoid cutoff m = true -> cutoff <= id m.
Proof.
  unfold selected. intros H. apply andb_prop in H. destruct H as [_ H].
  apply negb_true_iff in H. now apply Z.ltb_ge.
Qed.

Lemma selected_not_own_loading pred cutoff m :
  selected' pred true cutoff m = true -> is_own_loading' m = false.
Proof.
  unfold selected. intros H. apply andb_prop in H. destruct H as [H _].
  apply andb_prop in H. destruct H as [_ H].
  now apply negb_true_iff in H.
Qed.

(** C1: a message whose ID is below the cutoff that [purge] computes,
    [int((now - 1209600) * 1000.0 - DISCORD_EPOCH) << 22] for the float [now]
    that [time.time()] answers, leaves [to_delete] as it was when the loop
    meets it, its ID is not in what the scan accumulates, and no deletion
    request of [purge] carries it, whatever the predicate and the limits. *)
Theorem purge_never_deletes_old fuel self a now w m :
  id m < cutoff' now ->
  (forall dl pred avoid acc,
      snd (purge_body' dl pred avoid (cutoff' now) m acc) = acc) /\
  (forall acc evs,
      purge_scan' fuel self a now w = (Return acc, evs) -> ~ In (id m) acc) /\
  ~ In (id m) (deleted_ids (snd (purge' fuel self a now w))).
Proof.
  intros Hold.
  assert (Hacc : forall acc evs,
             purge_scan' fuel self a now w = (Return acc, evs) -> ~ In (id m) acc).
  { intros acc evs Hs Hin.
    destruct (purge_scan_selects _ _ _ _ _ _ _ Hs) as (seen & n & _ & _ & -> & _).
    apply in_map_iff in Hin. destruct Hin as (m' & Hid & Hm').
    apply filter_In in Hm'. destruct Hm' as [_ Hsel].
    apply selected_recent in Hsel. lia. }
  split; [|split; [exact Hacc|]].
  - intros dl pred avoid acc. rewrite purge_body_eq.
    destruct (negb (dl =? 0) && _); [reflexivity|]. cbn [snd].
    destruct (selected' pred avoid (cutoff' now) m) eqn:E; [|reflexivity].
    apply selected_recent in E. lia.
  - intros Hin. apply purge_deletes_from_scan in Hin.
    destruct Hin as (acc & evs & Hs & Hin). exact (Hacc acc evs Hs Hin).
Qed.

(** C9: with [avoid_loading_msg] on, a message written by the bot's own
    user and flagged LOADING leaves [to_delete], and so its length that is
    compared with [deletion_limit], as it was; what the scan accumulates
    are the IDs of messages, among those the iterator yielded, none of which
    is such a message; and [purge] asks to delete nothing else. *)
Theorem purge_spares_own_loading fuel self a now w :
  avoid_loading_msg a = true ->
  (forall m dl pred cutoff acc,
      is_own_loading' m = true ->
      snd (purge_body' dl pred true cutoff m acc) = acc) /\
  (forall acc evs,
      purge_scan' fuel self a now w = (Return acc, evs) ->
      exists seen n,
        async_for' fuel (purge_history self a)
          (watch (purge_body' (deletion_limit a) (purge_predicate a) true
                              (cutoff' now)))
          ([], []) w = (Return (acc, seen), evs) /\
        let chosen :=
          filter (selected' (purge_predicate a) true (cutoff' now)) (firstn n seen) in
        acc = map id chosen /\
        Forall (fun m => is_own_loading' m = false) chosen /\
        incl (deleted_ids (snd (purge' fuel self a now w))) (map id chosen)).
Proof.
  intros Hav. split.
  - intros m dl pred cutoff acc Hm. rewrite purge_body_eq.
    destruct (negb (dl =? 0) && _); [reflexivity|]. cbn [snd].
    destruct (selected' pred true cutoff m) eqn:E; [|reflexivity].
    apply selected_not_own_loading in E. congruence.
  - intros acc evs Hs.
    destruct (purge_scan_selects _ _ _ _ _ _ _ Hs) as (seen & n & Hw & _ & Hacc & _).
    rewrite Hav in Hw, Hacc.
    exists seen, n. split; [exact Hw|]. cbn zeta.
    split; [exact Hacc|]. split.
    + apply Forall_forall. intros m Hm. apply filter_In in Hm.
      destruct Hm as [_ Hm]. now apply selected_not_own_loading in Hm.
    + intros x Hx. apply purge_deletes_from_scan in Hx.
      destruct Hx as (acc' & evs' & Hs' & Hx).
      rewrite Hs in Hs'. injection Hs' as <- <-. now rewrite <- Hacc.
Qed.

(** C3: when the scan accumulates exactly one ID, [purge] sends one
    single-message deletion for it after the scan and no bulk deletion at
    all; and [delete_messages] on a one-element list is [delete_message] on
    its element. *)
Theorem purge_single_message fuel self a now w acc evs :
  purge_scan' fuel self a now w = (Return acc, evs) ->
  length acc = 1%nat ->
  exists x,
    acc = [x] /\
    snd (purge' fuel self a now w) =
      evs ++ [Http (http.delete_message self x (reason a))] /\
    filter is_delete (requests (snd (purge' fuel self a now w))) =
      [http.delete_message self x (reason a)] /\
    forall w', delete_messages' self [x] (reason a) w' =
               delete_message server self x (reason a) w'.
Proof.
  intros Hs Hl. destruct acc as [|x [|y acc]]; try discriminate.
  exists x. split; [reflexivity|].
  pose proof (scan_deletes_nothing fuel self a now w) as [Hnd _].
  rewrite Hs in Hnd. cbn [snd] in Hnd.
  assert (Hp : snd (purge' fuel self a now w) =
               evs ++ [Http (http.delete_message self x (reason a))]).
  { rewrite purge_run, Hs. cbn [snd]. f_equal.
    cbn [purge_batches length rev app chunks firstn skipn delete_batches].
    unfold bind. rewrite delete_messages_run. cbn [batch_request length Nat.eqb hd].
    destruct (server _ _); reflexivity. }
  split; [exact Hp|]. split.
  - rewrite Hp, requests_app, filter_app, Hnd. reflexivity.
  - intros w'. reflexivity.
Qed.

(** *** Batches *)

Lemma purge_batches_bounds acc :
  Forall (fun b => (1 <= length b <= 100)%nat) (purge_batches acc).
Proof.
  assert (H : Forall (fun n => (1 <= n <= 100)%nat)
                     (map (@length Z) (purge_batches acc))).
  { rewrite purge_batches_sizes. apply Forall_app. split.
    - apply Forall_forall. intros n Hn. apply repeat_spec in Hn. lia.
    - destruct (Nat.eqb_spec (length acc mod 100) 0); constructor; [|constructor].
      pose proof (Nat.mod_upper_bound (length acc) 100). lia. }
  now apply Forall_map in H.
Qed.

Lemma purge_batches_count acc :
  length (purge_batches acc) = ((length acc + 99) / 100)%nat.
Proof.
  rewrite <- (length_map (@length Z)), purge_batches_sizes.
  rewrite length_app, repeat_length.
  pose proof (Nat.div_mod_eq (length acc) 100) as E.
  pose proof (Nat.mod_upper_bound (length acc) 100 ltac:(lia)) as B.
  destruct (Nat.eqb_spec (length acc mod 100) 0) as [H0|H0]; cbn [length].
  - apply Nat.div_unique with (r := 99%nat); lia.
  - apply Nat.div_unique with (r := (length acc mod 100 - 1)%nat); lia.
Qed.

Lemma is_delete_batch_request self reason b :
  is_delete (batch_request self reason b) = true.
Proof. unfold batch_request. now destruct (length b =? 1)%nat. Qed.

Lemma bulk_requests_count self reason bs :
  length (filter is_bulk_delete (map (batch_request self reason) bs)) =
  length (filter (fun n => negb (n =? 1)%nat) (map (@length Z) bs)).
Proof.
  induction bs as [|b bs IH]; [reflexivity|]. cbn [map filter].
  unfold batch_request at 1.
  destruct (length b =? 1)%nat; cbn; now rewrite IH.
Qed.

Lemma single_requests_count self reason bs :
  length (filter is_single_delete (map (batch_request self reason) bs)) =
  length (filter (fun n => (n =? 1)%nat) (map (@length Z) bs)).
Proof.
  induction bs as [|b bs IH]; [reflexivity|]. cbn [map filter].
  unfold batch_request at 1.
  destruct (length b =? 1)%nat; cbn; now rewrite IH.
Qed.

Lemma filter_repeat {A} (f : A -> bool) x n :
  filter f (repeat x n) = if f x then repeat x n else [].
Proof.
  induction n as [|n IH]; cbn; [now destruct (f x)|].
  rewrite IH. now destruct (f x).
Qed.

(** C4 (as amended): the accumulated IDs, taken from the back, are cut into
    [ceil(N/100)] batches of 100 IDs with one last batch of [N mod 100] when
    that is not 0, so each holds between 1 and 100; when no deletion is
    refused [purge] sends one request per batch, in order, and returns [N]:
    a bulk deletion for every batch of two IDs or more and a single-message
    deletion for a last batch of exactly one ID.  For [N = 150] these are
    two bulk deletions, of 100 and of 50 IDs. *)
Theorem purge_batching fuel self a now w acc evs :
  purge_scan' fuel self a now w = (Return acc, evs) ->
  (forall w' r, is_delete r = true -> exists d, server w' r = inr d) ->
  let N := length acc in
  let bs := purge_batches acc in
  let reqs := map (batch_request self (reason a)) bs in
  concat bs = rev acc /\
  length bs = ((N + 99) / 100)%nat /\
  Forall (fun b => (1 <= length b <= 100)%nat) bs /\
  map (@length Z) bs =
    repeat 100%nat (N / 100) ++
    (if (N mod 100 =? 0)%nat then [] else [(N mod 100)%nat]) /\
  purge' fuel self a now w = (Return (Z.of_nat N), evs ++ map Http reqs) /\
  length (filter is_bulk_delete reqs) =
    (N / 100 + (if (1 <? N mod 100)%nat then 1 else 0))%nat /\
  length (filter is_single_delete reqs) =
    (if (N mod 100 =? 1)%nat then 1 else 0)%nat /\
  (N = 150%nat ->
   exists b1 b2,
     reqs = [http.bulk_delete_messages self b1 (reason a);
             http.bulk_delete_messages self b2 (reason a)] /\
     length b1 = 100%nat /\ length b2 = 50%nat).
Proof.
  intros Hs Hok N bs reqs.
  split; [apply purge_batches_concat|].
  split; [apply purge_batches_count|].
  split; [apply purge_batches_bounds|].
  split; [apply purge_batches_sizes|].
  split; [|split; [|split]].
  - rewrite purge_run, Hs.
    destruct (delete_batches_run self (reason a) bs (w ++ evs))
      as (k & Hk & Hev & [(Ho & -> & _) | (j & r & e & _ & Hn & _ & Hr & _)]).
    + fold bs. rewrite Ho, Hev. cbn [map_result]. fold reqs.
      rewrite <- (length_map (batch_request self (reason a))).
      fold reqs. now rewrite firstn_all.
    + apply nth_error_In, in_map_iff in Hn. destruct Hn as (b & <- & _).
      destruct (Hok (w ++ evs ++ map Http (firstn j (map (batch_request self (reason a)) bs)))
                    (batch_request self (reason a) b)
                    (is_delete_batch_request _ _ _)) as [d Hd].
      rewrite <- app_assoc in Hr. congruence.
  - subst reqs. rewrite bulk_requests_count. subst bs. rewrite purge_batches_sizes.
    rewrite filter_app, filter_repeat.
    change (negb (100 =? 1)%nat) with true. cbv iota.
    rewrite length_app, repeat_length. fold N. f_equal.
    destruct (Nat.eqb_spec (N mod 100) 0) as [->|H0]; [reflexivity|].
    cbn [filter].
    destruct (Nat.eqb_spec (N mod 100) 1) as [->|H1]; [reflexivity|].
    destruct (Nat.ltb_spec 1 (N mod 100)); [reflexivity | lia].
  - subst reqs. rewrite single_requests_count. subst bs. rewrite purge_batches_sizes.
    rewrite filter_app, filter_repeat.
    change (100 =? 1)%nat with false. cbv iota.
    rewrite length_app. cbn [length Nat.add]. fold N.
    destruct (Nat.eqb_spec (N mod 100) 0) as [E|H0]; [now rewrite E|].
    cbn [filter]. now destruct (N mod 100 =? 1)%nat.
  - intros HN.
    pose proof (purge_batches_sizes acc) as Hsz. fold N bs in Hsz.
    rewrite HN in Hsz. change (150 / 100)%nat with 1%nat in Hsz.
    change (150 mod 100)%nat with 50%nat in Hsz. cbn in Hsz.
    subst reqs. destruct bs as [|b1 [|b2 [|b3 bs']]]; try discriminate.
    injection Hsz as H1 H2. exists b1, b2.
    split; [|split; assumption].
    cbn [map]. unfold batch_request. now rewrite H1, H2.
Qed.

Lemma concat_firstn_shorter : forall (bs : list (list Z)) j,
  Forall (fun b => (1 <= length b <= 100)%nat) bs ->
  (j < length bs)%nat ->
  (length (concat (firstn j bs)) < length (concat bs))%nat.
Proof.
  induction bs as [|b bs IH]; intros j Hb Hj; [simpl in Hj; lia|].
  inversion Hb as [|? ? Hb1 Hb2]; subst.
  destruct j as [|j]; cbn [firstn concat]; rewrite ?length_app.
  - simpl. lia.
  - assert (length (concat (firstn j bs)) < length (concat bs))%nat
      by (apply IH; [assumption | simpl in Hj; lia]).
    lia.
Qed.

(** C7: once the scan has accumulated [acc], [purge] sends the requests of
    its batches in order, each at most once.  Either all are accepted and
    it returns the number of IDs accumulated, or the first refusal ends it:
    the error raised is the one the remote side answered with, the refused
    request is the last one sent, and the IDs of the batches deleted until
    then are fewer than the count it would have returned. *)
Theorem purge_count_and_failure fuel self a now w acc evs :
  purge_scan' fuel self a now w = (Return acc, evs) ->
  let bs := purge_batches acc in
  let reqs := map (batch_request self (reason a)) bs in
  exists k,
    (k <= length bs)%nat /\
    snd (purge' fuel self a now w) = evs ++ map Http (firstn k reqs) /\
    ((fst (purge' fuel self a now w) = Return (Z.of_nat (length acc)) /\
      k = length bs /\
      forall i r, nth_error reqs i = Some r ->
                  exists d, server (w ++ evs ++ map Http (firstn i reqs)) r = inr d)
     \/
     (exists j r e,
        k = S j /\ nth_error reqs j = Some r /\
        (forall i r', (i < j)%nat -> nth_error reqs i = Some r' ->
                      exists d, server (w ++ evs ++ map Http (firstn i reqs)) r' = inr d) /\
        server (w ++ evs ++ map Http (firstn j reqs)) r = inl e /\
        fst (purge' fuel self a now w) = Raise e /\
        (length (concat (firstn j bs)) < length acc)%nat)).
Proof.
  intros Hs bs reqs. rewrite purge_run, Hs. cbn [fst snd]. fold bs.
  destruct (delete_batches_run self (reason a) bs (w ++ evs))
    as (k & Hk & Hev & Hres). fold reqs in Hev, Hres.
  exists k. split; [exact Hk|]. split; [now rewrite Hev|].
  destruct Hres as [(Ho & Hkl & Hall) | (j & r & e & Hj & Hn & Hprev & Hr & Ho)].
  - left. rewrite Ho. split; [reflexivity|]. split; [exact Hkl|].
    intros i r Hi. destruct (Hall i r Hi) as [d Hd]. exists d.
    now rewrite <- app_assoc in Hd.
  - right. exists j, r, e. split; [exact Hj|]. split; [exact Hn|].
    split; [|split; [now rewrite <- app_assoc in Hr|split]].
    + intros i r' Hi Hr'. destruct (Hprev i r' Hi Hr') as [d Hd]. exists d.
      now rewrite <- app_assoc in Hd.
    + now rewrite Ho.
    + rewrite <- (length_rev acc), <- purge_batches_concat.
      apply concat_firstn_shorter; [apply purge_batches_bounds|].
      fold bs. lia.
Qed.

(** *** The modes of the iterator *)

Lemma resolve_fields h :
  channel (resolve h) = channel h /\ _limit (resolve h) = _limit h /\
  last (resolve h) = last h /\ _queue (resolve h) = _queue h /\
  total_retrieved (resolve h) = total_retrieved h /\
  truthy (after (resolve h)) = truthy (after h) /\
  (truthy (after h) = false ->
   truthy (around (resolve h)) = truthy (around h) /\
   (truthy (around h) = false ->
    truthy (before (resolve h)) = truthy (before h) /\
    (truthy (before h) = true -> before (resolve h) = before h))) /\
  (truthy (after h) = true -> after (resolve h) = after h) /\
  (truthy (around h) = true -> truthy (after h) = false ->
   around (resolve h) = around h).
Proof.
  destruct h as [c b a r l la q t]. unfold resolve, precedence. cbn.
  destruct (truthy a) eqn:Ea; [cbn; rewrite ?Ea; intuition congruence|].
  destruct (truthy r) eqn:Er; [cbn; rewrite ?Er; intuition congruence|].
  destruct (truthy b) eqn:Eb; cbn; rewrite ?Eb; intuition congruence.
Qed.

Lemma fetch_request_resolve h : fetch_request (resolve h) = fetch_request h.
Proof.
  destruct h as [c b a r l la q t]. unfold resolve, precedence, fetch_request, get_limit.
  cbn.
  destruct (truthy a) eqn:Ea; [cbn; now rewrite Ea|].
  destruct (truthy r) eqn:Er; [cbn; now rewrite Er|].
  destruct (truthy b) eqn:Eb; cbn; rewrite ?Eb; reflexivity.
Qed.

Lemma fetch_page_resolve h data :
  fetch_page place_message_data (resolve h) data =
  fetch_page place_message_data h data.
Proof.
  destruct h as [c b a r l la q t]. unfold resolve, precedence, fetch_page. cbn.
  destruct (truthy a) eqn:Ea; [cbn; now rewrite Ea|].
  destruct (truthy r) eqn:Er; [cbn; now rewrite Er|].
  destruct (truthy b) eqn:Eb; cbn; rewrite ?Eb; reflexivity.
Qed.

Lemma fetch_state_resolve h : fetch_state (resolve h) = resolve (fetch_state h).
Proof.
  destruct h as [c b a r l la q t]. unfold resolve, precedence, fetch_state. cbn.
  destruct (truthy a) eqn:Ea; [destruct la; cbn; now rewrite Ea|].
  destruct (truthy r) eqn:Er; [cbn; now rewrite Ea, Er|].
  destruct (truthy b) eqn:Eb; [destruct la|]; cbn; rewrite ?Ea, ?Er, ?Eb; reflexivity.
Qed.

Lemma yield_resolve h m q : yield (resolve h) m q = resolve (yield h m q).
Proof.
  destruct h as [c b a r l la qq t]. unfold resolve, precedence, yield. cbn.
  destruct (truthy a); [reflexivity|]. destruct (truthy r); [reflexivity|].
  destruct (truthy b); reflexivity.
Qed.

Lemma anext_resolve h w :
  anext' (resolve h) w =
    (map_result (option_map (fun p => (fst p, resolve (snd p)))) (fst (anext' h w)),
     snd (anext' h w)).
Proof.
  rewrite !anext_run.
  destruct (resolve_fields h) as (_ & Hl & _ & Hq & Ht & _).
  rewrite Hq. destruct (_queue h) as [|m q].
  - unfold _continue. rewrite Hl, Ht. fold (_continue h).
    destruct (_continue h); [|reflexivity].
    rewrite fetch_request_resolve.
    destruct (server w (fetch_request h)) as [e|data]; [reflexivity|].
    rewrite fetch_page_resolve. cbn [fst snd map_result].
    destruct (fetch_page place_message_data h data); cbn; [reflexivity|].
    now rewrite fetch_state_resolve, yield_resolve.
  - cbn. now rewrite yield_resolve.
Qed.

(** A loop over the iterator sees nothing of the anchors [fetch] passes over. *)
Lemma async_for_resolve {S : Type} (body : Message -> S -> bool * S) :
  forall fuel h s w,
    async_for' fuel (resolve h) body s w = async_for' fuel h body s w.
Proof.
  induction fuel as [|f IH]; intros h s w; [reflexivity|].
  rewrite !async_for_unfold, anext_resolve.
  destruct (anext' h w) as [[[[m h']|]|e|] evs]; cbn; try reflexivity.
  now rewrite IH.
Qed.

(** C10: an iterator built with several truthy anchors raises nothing of
    its own and runs exactly as the one built with only the anchor of
    highest precedence, a truthy [after] before a truthy [around] before
    a truthy [before], a 0 counting as absent: the same request, page and
    outcome at every fetch, and the same outcome and events for any loop
    over it. *)
Theorem history_anchor_precedence c lim b a r :
  let h := ChannelHistory_init c lim b a r in
  let '(b1, a1, r1) := precedence b a r in
  let h1 := ChannelHistory_init c lim b1 a1 r1 in
  fetch_request h = fetch_request h1 /\
  (forall w,
      fst (fetch' h1 w) =
        map_result (fun p => (fst p, resolve (snd p))) (fst (fetch' h w)) /\
      snd (fetch' h1 w) = snd (fetch' h w)) /\
  (forall (S : Type) (body : Message -> S -> bool * S) fuel s w,
      async_for' fuel h body s w = async_for' fuel h1 body s w) /\
  (forall fuel w, flatten' fuel h w = flatten' fuel h1 w).
Proof.
  intros h.
  assert (Hr : resolve h =
               let '(b1, a1, r1) := precedence b a r in
               ChannelHistory_init c lim b1 a1 r1).
  { unfold resolve, h, ChannelHistory_init. cbn.
    now destruct (precedence b a r) as [[b1 a1] r1]. }
  destruct (precedence b a r) as [[b1 a1] r1]. intros h1.
  change (resolve h = h1) in Hr. rewrite <- Hr.
  split; [symmetry; apply fetch_request_resolve|].
  split; [|split].
  - intros w. rewrite !fetch_run, fetch_request_resolve.
    destruct (server w (fetch_request h)); [split; reflexivity|].
    cbn. now rewrite fetch_page_resolve, fetch_state_resolve.
  - intros S body fuel s w. symmetry. apply async_for_resolve.
  - intros fuel w. symmetry. apply async_for_resolve.
Qed.

(** *** The [around] mode *)

(** Once the page of an [around] iterator is in, no loop over it asks for
    anything more. *)
Lemma around_served_no_requests {S : Type} (body : Message -> S -> bool * S) :
  forall fuel h s w,
    truthy (after h) = false -> truthy (around h) = true ->
    _limit h = 1 -> 0 <= total_retrieved h ->
    (_queue h <> [] \/ 1 <= total_retrieved h) ->
    requests (snd (async_for' fuel h body s w)) = [].
Proof.
  induction fuel as [|f IH]; intros h s w Ha Hr Hl Ht Hq; [reflexivity|].
  rewrite async_for_unfold, anext_run.
  destruct (_queue h) as [|m q] eqn:Eq.
  - unfold _continue. rewrite Hl.
    destruct Hq as [Hq|Hq]; [congruence|].
    destruct (Z.ltb_spec (total_retrieved h) 1); [lia|]. reflexivity.
  - destruct (fst (body m s)); [reflexivity|]. cbn [snd app].
    apply IH; cbn; auto; lia.
Qed.

(** C6: an iterator built with [around] as its one anchor (a truthy
    [around], [after] not set) asks the HTTP client for at most one page, the
    one around the anchor, whatever the limit asked for, 0 included, and
    however the loop over it ends; the fetch of that page leaves the limit
    at 1. *)
Theorem around_fetches_once c lim b a r :
  truthy a = false -> truthy r = true ->
  let h := ChannelHistory_init c lim b a r in
  (forall (S : Type) (body : Message -> S -> bool * S) fuel s w,
      requests (snd (async_for' fuel h body s w)) = [] \/
      requests (snd (async_for' fuel h body s w)) =
        [http.get_channel_messages c (get_limit h) r None None]) /\
  (forall w page h' evs,
      fetch' h w = (Return (page, h'), evs) -> _limit h' = 1).
Proof.
  intros Ha Hr h.
  assert (Hreq : fetch_request h =
                 http.get_channel_messages c (get_limit h) r None None).
  { unfold fetch_request. cbn [h ChannelHistory_init after around].
    now rewrite Ha, Hr. }
  assert (Hfs : fetch_state h = set_limit h 1).
  { unfold fetch_state. cbn [h ChannelHistory_init after around].
    now rewrite Ha, Hr. }
  split.
  - intros S body fuel s w. destruct fuel as [|f]; [now left|].
    rewrite async_for_unfold, anext_run. cbn [h ChannelHistory_init _queue].
    fold h. destruct (_continue h); [|now left].
    rewrite <- Hreq.
    destruct (server w (fetch_request h)) as [e|data]; [now right|].
    right.
    destruct (fetch_page place_message_data h data) as [|m q];
      [cbn; now rewrite requests_Cache|].
    destruct (fst (body m s)); [cbn; now rewrite requests_Cache|].
    cbn [snd]. rewrite requests_app. cbn [requests]. rewrite requests_Cache.
    rewrite Hfs.
    rewrite around_served_no_requests; cbn; auto; lia.
  - intros w page h' evs. rewrite fetch_run.
    destruct (server w (fetch_request h)); [discriminate|].
    intros [= _ <- _]. now rewrite Hfs.
Qed.

(** *** Running the iterator dry *)

Lemma map_result_compose {A B C} (f : A -> B) (g : B -> C) r :
  map_result g (map_result f r) = map_result (fun x => g (f x)) r.
Proof. now destruct r. Qed.

Lemma map_result_ext {A B} (f g : A -> B) r :
  (forall x, f x = g x) -> map_result f r = map_result g r.
Proof. intros H. destruct r; cbn; now rewrite ?H. Qed.

Lemma collect_shift : forall fuel h l0 w,
  async_for' fuel h collect l0 w =
    (map_result (app l0) (fst (async_for' fuel h collect [] w)),
     snd (async_for' fuel h collect [] w)).
Proof.
  induction fuel as [|f IH]; intros h l0 w; [reflexivity|].
  rewrite !async_for_unfold.
  destruct (anext' h w) as [[[[m h']|]|e|] evs]; cbn [collect fst snd map_result];
    try reflexivity; [|now rewrite app_nil_r].
  rewrite (IH h' (l0 ++ [m])), (IH h' ([] ++ [m])). cbn [fst snd app].
  rewrite map_result_compose. f_equal.
  apply map_result_ext. intros x. now rewrite <- app_assoc.
Qed.

Lemma loop_fold_no_break {S : Type} (body : Message -> S -> bool * S) m msgs s :
  fst (body m s) = false ->
  loop_fold body (m :: msgs) s = loop_fold body msgs (snd (body m s)).
Proof. cbn. destruct (body m s) as [[] s']; cbn; [discriminate | reflexivity]. Qed.

(** A loop that never breaks runs as long as [flatten] and folds its body
    over the very messages [flatten] returns. *)
Lemma async_for_no_break {S : Type} (body : Message -> S -> bool * S) :
  (forall m s, fst (body m s) = false) ->
  forall fuel h s w,
    async_for' fuel h body s w =
      (map_result (fun msgs => loop_fold body msgs s) (fst (flatten' fuel h w)),
       snd (flatten' fuel h w)).
Proof.
  intros Hnb. unfold flatten.
  induction fuel as [|f IH]; intros h s w; [reflexivity|].
  rewrite !async_for_unfold.
  destruct (anext' h w) as [[[[m h']|]|e|] evs]; cbn [collect fst snd map_result];
    try reflexivity.
  rewrite Hnb, IH, (collect_shift f h' ([] ++ [m])). cbn [fst snd app].
  rewrite map_result_compose. f_equal.
  apply map_result_ext. intros x. cbn [app]. now rewrite loop_fold_no_break.
Qed.

Lemma ends_on_empty_page_shift w evs0 evs :
  ends_on_empty_page server (w ++ evs0) evs ->
  ends_on_empty_page server w (evs0 ++ evs).
Proof.
  intros (e0 & r & -> & Hg & Hs). exists (evs0 ++ e0), r.
  rewrite <- !app_assoc in *. auto.
Qed.

Lemma fetch_page_nil h data :
  fetch_page place_message_data h data = [] -> data = [].
Proof.
  unfold fetch_page. intros H.
  destruct (truthy (after h)); [apply sort_asc_nil in H|
    destruct (truthy (around h)); [|apply sort_desc_nil in H]];
    now apply map_eq_nil in H.
Qed.

(** Outside the [around] mode the sequence ends when the limit is reached
    or a page comes back empty. *)
Lemma flatten_ends_paged : forall fuel h l0 w msgs evs,
  (truthy (after h) = true \/ truthy (around h) = false) ->
  async_for' fuel h collect l0 w = (Return msgs, evs) ->
  exists new,
    msgs = l0 ++ new /\
    ((_limit h <> 0 /\ _limit h <= total_retrieved h + Z.of_nat (length new)) \/
     ends_on_empty_page server w evs).
Proof.
  induction fuel as [|f IH]; intros h l0 w msgs evs Hm; [discriminate|].
  rewrite async_for_unfold, anext_run.
  destruct (_queue h) as [|m q].
  - destruct (_continue h) eqn:Ec.
    + destruct (server w (fetch_request h)) as [e|data] eqn:Es; [discriminate|].
      destruct (fetch_page place_message_data h data) as [|m q] eqn:Ep.
      * intros [= <- <-]. exists []. split; [now rewrite app_nil_r|]. right.
        apply fetch_page_nil in Ep. subst data.
        exists [], (fetch_request h). rewrite app_nil_r.
        repeat split; [apply is_get_fetch_request | exact Es].
      * cbn [collect fst snd].
        destruct (async_for' f _ collect (l0 ++ [m]) _) as [o evs1] eqn:Ea.
        cbn [fst snd]. intros [= -> <-].
        apply IH in Ea.
        2:{ cbn. unfold fetch_state.
            destruct Hm as [Hm|Hm]; rewrite Hm; [left|right].
            - destruct (last h); cbn; exact Hm.
            - destruct (truthy (after h)); [destruct (last h)|
                destruct (truthy (before h)); [destruct (last h)|]]; cbn; exact Hm. }
        destruct Ea as (new & -> & Hend). exists (m :: new).
        split; [now rewrite <- app_assoc|].
        destruct Hend as [[Hl Hle]|He]; [left | right].
        -- assert (Hst : _limit (fetch_state h) = _limit h /\
                         total_retrieved (fetch_state h) = total_retrieved h).
           { unfold fetch_state.
             destruct (truthy (after h)) eqn:E1; [destruct (last h); now split|].
             destruct Hm as [Hm|Hm]; [discriminate|]. rewrite Hm.
             destruct (truthy (before h)); [destruct (last h)|]; now split. }
           destruct Hst as [Hl1 Ht1]. cbn in Hl, Hle. rewrite Hl1 in Hl, Hle.
           rewrite Ht1 in Hle. split; [exact Hl|]. cbn [length]. lia.
        -- change (Http (fetch_request h) :: map Cache data ++ evs1)
             with ((Http (fetch_request h) :: map Cache data) ++ evs1).
           now apply ends_on_empty_page_shift.
    + intros [= <- <-]. exists []. split; [now rewrite app_nil_r|]. left.
      unfold _continue in Ec. apply orb_false_iff in Ec. destruct Ec as [E0 E1].
      apply Z.eqb_neq in E0. apply Z.ltb_ge in E1. cbn. split; [exact E0 | lia].
  - cbn [collect fst snd].
    destruct (async_for' f _ collect (l0 ++ [m]) _) as [o evs1] eqn:Ea.
    cbn [fst snd app]. intros [= -> <-].
    rewrite app_nil_r in Ea. apply IH in Ea; [|exact Hm].
    destruct Ea as (new & -> & Hend). exists (m :: new).
    split; [now rewrite <- app_assoc|].
    destruct Hend as [[Hl Hle]|He]; [left | right; exact He].
    cbn in Hl, Hle. split; [exact Hl|]. cbn [length]. lia.
Qed.

(** In the [around] mode, once the page is in, the sequence is what is left
    of that page. *)
Lemma flatten_around_served : forall fuel h l0 w msgs evs,
  truthy (after h) = false -> truthy (around h) = true ->
  _limit h = 1 -> 0 <= total_retrieved h ->
  (_queue h <> [] \/ 1 <= total_retrieved h) ->
  async_for' fuel h collect l0 w = (Return msgs, evs) ->
  msgs = l0 ++ _queue h /\ evs = [].
Proof.
  induction fuel as [|f IH]; intros h l0 w msgs evs Ha Hr Hl Ht Hq; [discriminate|].
  rewrite async_for_unfold, anext_run.
  destruct (_queue h) as [|m q] eqn:Eq.
  - unfold _continue. rewrite Hl.
    destruct Hq as [Hq|Hq]; [congruence|].
    destruct (Z.ltb_spec (total_retrieved h) 1); [lia|]. cbn.
    intros [= <- <-]. now rewrite app_nil_r.
  - cbn [collect fst snd].
    destruct (async_for' f _ collect (l0 ++ [m]) _) as [o evs1] eqn:Ea.
    cbn [fst snd app]. intros [= -> <-].
    apply IH in Ea; cbn; auto; try lia.
    destruct Ea as [-> ->]. cbn. now rewrite <- app_assoc.
Qed.

(** C5 (as amended): with [deletion_limit > 0] every round of the loop
    keeps [to_delete] within [deletion_limit] entries, a round that finds it
    full breaks without touching it, and so the scan never returns more;
    with [deletion_limit = 0] the loop never breaks: it runs exactly as long
    as draining the iterator and accumulates every selected message of the
    whole sequence, which ends once [search_limit] messages were handed
    out, or on an empty page, or, in the [around] mode, after the one page
    around the anchor. *)
Theorem purge_scan_limits fuel self a now w :
  let dl := deletion_limit a in
  let body :=
    purge_body' dl (purge_predicate a) (avoid_loading_msg a) (cutoff' now) in
  let h := purge_history self a in
  (0 < dl ->
   (forall m acc,
       Z.of_nat (length acc) <= dl ->
       Z.of_nat (length (snd (body m acc))) <= dl) /\
   (forall m acc, Z.of_nat (length acc) = dl -> body m acc = (true, acc)) /\
   (forall acc evs,
       purge_scan' fuel self a now w = (Return acc, evs) ->
       Z.of_nat (length acc) <= dl)) /\
  (dl = 0 ->
   (forall m acc, fst (body m acc) = false) /\
   purge_scan' fuel self a now w =
     (map_result
        (fun msgs =>
           map id (filter (selected' (purge_predicate a) (avoid_loading_msg a)
                                     (cutoff' now)) msgs))
        (fst (flatten' fuel h w)),
      snd (flatten' fuel h w)) /\
   (forall msgs evs,
       flatten' fuel h w = (Return msgs, evs) ->
       (search_limit a <> 0 /\ search_limit a <= Z.of_nat (length msgs)) \/
       ends_on_empty_page server w evs \/
       (truthy (purge_after a) = false /\ truthy (purge_around a) = true /\
        exists r data,
          requests evs = [r] /\ server w r = inr data /\
          msgs = map place_message_data data))).
Proof.
  intros dl body h. split.
  - intros Hd. split; [|split].
    + intros m acc Ha. unfold body. rewrite purge_body_eq.
      destruct (Z.eqb_spec dl 0); [lia|].
      destruct (Z.eqb_spec (Z.of_nat (length acc)) dl); [exact Ha|].
      cbn [negb andb snd].
      destruct (selected' _ _ _ m); [|exact Ha].
      rewrite length_app. cbn [length]. lia.
    + intros m acc Ha. unfold body. rewrite purge_body_eq.
      destruct (Z.eqb_spec dl 0); [lia|].
      destruct (Z.eqb_spec (Z.of_nat (length acc)) dl); [reflexivity | lia].
    + intros acc evs Hs. unfold purge_scan in Hs.
      apply async_for_fold in Hs. destruct Hs as (seen & _ & ->).
      apply purge_fold_bound; [exact Hd | cbn; lia].
  - intros H0.
    assert (Hnb : forall m acc, fst (body m acc) = false).
    { intros m acc. unfold body. rewrite purge_body_eq, H0. reflexivity. }
    split; [exact Hnb|]. split.
    + unfold purge_scan. fold (purge_predicate a) (purge_history self a) dl body h.
      rewrite (async_for_no_break body Hnb). f_equal.
      apply map_result_ext. intros msgs.
      destruct (purge_fold_selects dl (purge_predicate a) (avoid_loading_msg a)
                  (cutoff' now) msgs []) as (n & _ & Hf & Hn).
      fold body in Hf. rewrite Hf, (Hn H0), firstn_all. reflexivity.
    + intros msgs evs Hf. unfold flatten in Hf.
      destruct (truthy (purge_after a)) eqn:Ea;
        [|destruct (truthy (purge_around a)) eqn:Er].
      * apply flatten_ends_paged in Hf; [|left; exact Ea].
        destruct Hf as (new & -> & [[Hl Hle]|He]); [left | right; left; exact He].
        cbn in Hl, Hle. cbn [app]. split; [exact Hl | lia].
      * destruct fuel as [|f]; [discriminate|].
        rewrite async_for_unfold, anext_run in Hf.
        cbn [h purge_history history ChannelHistory_init _queue] in Hf. fold h in Hf.
        assert (Hreq : fetch_page place_message_data h =
                       map place_message_data /\ fetch_state h = set_limit h 1).
        { unfold fetch_page, fetch_state.
          cbn [h purge_history history ChannelHistory_init after around].
          rewrite Ea, Er. now split. }
        destruct Hreq as [Hpg Hst].
        destruct (_continue h) eqn:Ec.
        -- destruct (server w (fetch_request h)) as [e|data] eqn:Es; [discriminate|].
           rewrite Hpg, Hst in Hf.
           destruct (map place_message_data data) as [|m q] eqn:Ep.
           ++ injection Hf as <- <-. right. left.
              apply map_eq_nil in Ep. subst data.
              exists [], (fetch_request h). rewrite app_nil_r.
              repeat split; [apply is_get_fetch_request | exact Es].
           ++ cbn [collect fst snd app] in Hf.
              destruct (async_for' f _ collect [m] _) as [o evs1] eqn:Ef.
              cbn [fst snd] in Hf. injection Hf as -> <-.
              apply flatten_around_served in Ef; cbn; auto; try lia.
              destruct Ef as [-> ->]. right. right.
              split; [reflexivity|]. split; [reflexivity|].
              exists (fetch_request h), data.
              rewrite app_nil_r. cbn [requests]. rewrite requests_Cache.
              cbn [yield _queue app]. auto.
        -- injection Hf as <- <-. left.
           unfold _continue in Ec. apply orb_false_iff in Ec. destruct Ec as [E0 E1].
           apply Z.eqb_neq in E0. apply Z.ltb_ge in E1. cbn in E0, E1 |- *.
           split; [exact E0 | lia].
      * apply flatten_ends_paged in Hf; [|right; exact Er].
        destruct Hf as (new & -> & [[Hl Hle]|He]); [left | right; left; exact He].
        cbn in Hl, Hle. cbn [app]. split; [exact Hl | lia].
Qed.

(** *** Fuel *)

(** More fuel does not change a loop that ended. *)
Lemma async_for_more_fuel {S : Type} (body : Message -> S -> bool * S) :
  forall fuel extra h s w,
    fst (async_for' fuel h body s w) <> Timeout ->
    async_for' (fuel + extra) h body s w = async_for' fuel h body s w.
Proof.
  induction fuel as [|f IH]; intros extra h s w Hr; [now contradiction Hr|].
  cbn [Nat.add]. rewrite !async_for_unfold in *.
  destruct (anext' h w) as [[[[m h']|]|e|] evs]; try reflexivity.
  destruct (fst (body m s)); [reflexivity|]. cbn [fst] in Hr.
  now rewrite IH.
Qed.

Lemma fetch_page_length h data :
  length (fetch_page place_message_data h data) = length data.
Proof.
  unfold fetch_page.
  destruct (truthy (after h)); [|destruct (truthy (around h))].
  - rewrite <- (Permutation_length (sort_asc_perm _)). apply length_map.
  - apply length_map.
  - rewrite <- (Permutation_length (sort_desc_perm _)). apply length_map.
Qed.

Lemma get_limit_pos h : 0 < get_limit h.
Proof.
  unfold get_limit. destruct (Z.ltb_spec 0 (if _limit h =? 0 then 0 else _limit h - total_retrieved h)); lia.
Qed.

Lemma fetch_request_limit h :
  exists c ar b a, fetch_request h = http.get_channel_messages c (get_limit h) ar b a.
Proof.
  unfold fetch_request. destruct (truthy (after h)); [|destruct (truthy (around h))];
    repeat eexists.
Qed.

(** Outside the [around] mode a bounded iterator is dry after as many steps
    as it has messages left to hand out, and one more. *)
Lemma async_for_ends_paged {S : Type} (body : Message -> S -> bool * S) :
  honours_limit server ->
  forall fuel h s w,
    (truthy (after h) = true \/ truthy (around h) = false) ->
    0 < _limit h ->
    total_retrieved h + Z.of_nat (length (_queue h)) <= _limit h ->
    _limit h - total_retrieved h < Z.of_nat fuel ->
    fst (async_for' fuel h body s w) <> Timeout.
Proof.
  intros Hsrv. induction fuel as [|f IH]; intros h s w Hm Hl Hq Hf; [lia|].
  rewrite async_for_unfold, anext_run.
  destruct (_queue h) as [|m q] eqn:Eq.
  - destruct (_continue h) eqn:Ec; [|discriminate].
    destruct (server w (fetch_request h)) as [e|data] eqn:Es; [discriminate|].
    pose proof (fetch_page_length h data) as Hlen.
    destruct (fetch_page place_message_data h data) as [|m q]; [discriminate|].
    destruct (fst (body m s)); [discriminate|]. cbn [fst].
    assert (Hst : _limit (fetch_state h) = _limit h /\
                  total_retrieved (fetch_state h) = total_retrieved h /\
                  (truthy (after (fetch_state h)) = true \/
                   truthy (around (fetch_state h)) = false)).
    { unfold fetch_state.
      destruct (truthy (after h)) eqn:E1.
      - destruct (last h); cbn; rewrite E1; auto.
      - destruct Hm as [Hm|Hm]; [discriminate|]. rewrite Hm.
        destruct (truthy (before h)); [destruct (last h)|]; cbn; rewrite ?E1, ?Hm; auto. }
    destruct Hst as (Hl1 & Ht1 & Hm1).
    destruct (fetch_request_limit h) as (c & ar & b & a & Er). rewrite Er in Es.
    apply Hsrv in Es; [|apply get_limit_pos].
    assert (Hg : get_limit h <= _limit h - total_retrieved h).
    { unfold get_limit. destruct (Z.eqb_spec (_limit h) 0); [lia|].
      unfold _continue in Ec. apply orb_true_iff in Ec.
      destruct Ec as [Ec|Ec]; [apply Z.eqb_eq in Ec; lia|]. apply Z.ltb_lt in Ec.
      destruct (Z.ltb_spec 0 (_limit h - total_retrieved h)); lia. }
    cbn [length] in Hlen.
    apply IH; cbn; rewrite ?Hl1, ?Ht1; auto; lia.
  - destruct (fst (body m s)); [discriminate|]. cbn [fst].
    cbn [length] in Hq. apply IH; cbn; auto; lia.
Qed.

(** In the [around] mode, once the page is in, the iterator is dry after as
    many steps as the page has messages left, and one more. *)
Lemma async_for_ends_around_served {S : Type} (body : Message -> S -> bool * S) :
  forall fuel h s w,
    _limit h = 1 -> 0 <= total_retrieved h ->
    (_queue h <> [] \/ 1 <= total_retrieved h) ->
    (length (_queue h) < fuel)%nat ->
    fst (async_for' fuel h body s w) <> Timeout.
Proof.
  induction fuel as [|f IH]; intros h s w Hl Ht Hq Hf; [lia|].
  rewrite async_for_unfold, anext_run.
  destruct (_queue h) as [|m q] eqn:Eq.
  - unfold _continue. rewrite Hl.
    destruct Hq as [Hq|Hq]; [congruence|].
    destruct (Z.ltb_spec (total_retrieved h) 1); [lia|]. discriminate.
  - destruct (fst (body m s)); [discriminate|]. cbn [fst].
    cbn [length] in Hf. apply IH; cbn; auto; lia.
Qed.

(** With a positive limit and a remote side that honours page sizes, a
    loop over a fresh iterator ends within [limit + 1] steps. *)
Lemma async_for_ends {S : Type} (body : Message -> S -> bool * S) c lim b a r :
  honours_limit server -> 0 < lim ->
  forall fuel s w,
    (Z.to_nat lim < fuel)%nat ->
    fst (async_for' fuel (ChannelHistory_init c lim b a r) body s w) <> Timeout.
Proof.
  intros Hsrv Hlim fuel s w Hf.
  set (h := ChannelHistory_init c lim b a r).
  destruct (truthy a) eqn:Ea; [|destruct (truthy r) eqn:Er].
  - apply async_for_ends_paged; cbn; auto; lia.
  - destruct fuel as [|f]; [lia|].
    rewrite async_for_unfold, anext_run. cbn [h ChannelHistory_init _queue]. fold h.
    destruct (_continue h); [|discriminate].
    destruct (server w (fetch_request h)) as [e|data] eqn:Es; [discriminate|].
    pose proof (fetch_page_length h data) as Hlen.
    destruct (fetch_page place_message_data h data) as [|m q]; [discriminate|].
    destruct (fst (body m s)); [discriminate|]. cbn [fst].
    destruct (fetch_request_limit h) as (c' & ar & b' & a' & Erq). rewrite Erq in Es.
    apply Hsrv in Es; [|apply get_limit_pos].
    assert (Hg : get_limit h <= lim).
    { unfold get_limit. cbn [h ChannelHistory_init _limit total_retrieved].
      destruct (Z.eqb_spec lim 0); [lia|].
      destruct (Z.ltb_spec 0 (lim - 0)); lia. }
    assert (Hfs : fetch_state h = set_limit h 1).
    { unfold fetch_state. cbn [h ChannelHistory_init after around]. now rewrite Ea, Er. }
    rewrite Hfs. cbn [length] in Hlen.
    apply async_for_ends_around_served; cbn; auto; lia.
  - apply async_for_ends_paged; cbn; auto; lia.
Qed.

(** So [purge] with a positive [search_limit] answers: it returns or
    raises within [search_limit + 1] steps of its scan. *)
Lemma purge_ends self a now w fuel :
  honours_limit server -> 0 < search_limit a ->
  (Z.to_nat (search_limit a) < fuel)%nat ->
  fst (purge' fuel self a now w) <> Timeout.
Proof.
  intros Hsrv Hsl Hf. rewrite purge_run.
  pose proof (async_for_ends
                (purge_body' (deletion_limit a) (purge_predicate a)
                             (avoid_loading_msg a) (cutoff' now))
                self (search_limit a) (purge_before a) (purge_after a) (purge_around a)
                Hsrv Hsl fuel [] w Hf) as Hscan.
  change (fst (purge_scan' fuel self a now w) <> Timeout) in Hscan.
  destruct (purge_scan' fuel self a now w) as [[acc|e|] evs1]; cbn [fst] in *;
    [|discriminate|congruence].
  destruct (delete_batches_run self (reason a) (purge_batches acc) (w ++ evs1))
    as (k & _ & _ & [(Ho & _) | (j & r & e & _ & _ & _ & _ & Ho)]);
    rewrite Ho; discriminate.
Qed.

End Properties.

(** ** The theorems at work on concrete channels *)

Lemma get_messages_limit_check_witness :
  get_messages (channel_server (countdown 3)) cache_identity 7 101 None None None [] =
    (Raise (ValueError "You cannot fetch more than 100 messages at once."), []) /\
  exists rest,
    snd (get_messages (channel_server (countdown 3)) cache_identity 7 100 None None None []) =
      Http (http.get_channel_messages 7 100 None None None) :: rest.
Proof.
  split.
  - apply (get_messages_limit_check (channel_server (countdown 3)) cache_identity
             7 101 None None None []). lia.
  - destruct (get_messages_limit_check (channel_server (countdown 3)) cache_identity
                7 100 None None None []) as [_ H].
    destruct (H ltac:(lia)) as (rest & Hr & _). exists rest. exact Hr.
Defined.

Lemma fetch_page_order_witness :
  let h := ChannelHistory_init 7 50 None (Some 1) None in
  exists page h' evs,
    fetch (channel_server (countdown 3)) cache_identity h [] = (Return (page, h'), evs) /\
    map id page = [2; 3] /\ ascending page.
Proof.
  intros h. eexists. eexists. eexists.
  split; [vm_compute; reflexivity|]. split; [reflexivity|].
  destruct (fetch_page_order (channel_server (countdown 3)) cache_identity h []
              _ _ _ eq_refl) as (data & _ & _ & Hasc & _).
  apply Hasc. reflexivity.
Defined.

Lemma fetch_around_not_descending :
  let h := ChannelHistory_init 7 50 None None (Some 2) in
  exists page h' evs,
    fetch (fixed_page_server [mkMessage 1 0 0; mkMessage 2 0 0]) cache_identity h [] =
      (Return (page, h'), evs) /\
    ~ descending page.
Proof.
  intros h. eexists. eexists. eexists.
  split; [vm_compute; reflexivity|].
  intros H. inversion H as [|? ? _ Hall]; subst.
  inversion Hall as [|? ? Hle _]; subst. cbn in Hle. lia.
Qed.

Lemma purge_never_deletes_old_witness :
  let m := mkMessage 5 0 0 in
  id m < fourteen_days_ago demo_EPOCH demo_fl demo_fraction /\
  ~ In (id m) (deleted_ids (snd (demo_purge (channel_server (countdown 9)) 20 (purge_all 100) demo_fraction))).
Proof.
  intros m.
  assert (H : id m < fourteen_days_ago demo_EPOCH demo_fl demo_fraction) by (vm_compute; reflexivity).
  split; [exact H|].
  apply (purge_never_deletes_old (channel_server (countdown 9)) cache_identity
           demo_LOADING demo_EPOCH demo_user demo_fl 20 7 (purge_all 100) demo_fraction [] m H).
Defined.

Lemma purge_spares_own_loading_witness :
  avoid_loading_msg (purge_all 100) = true /\
  snd (purge_body demo_LOADING demo_user 50 accept_all true 0
                  (mkMessage 3 demo_user demo_LOADING) [9]) = [9].
Proof.
  split; [reflexivity|].
  destruct (purge_spares_own_loading (channel_server own_loading_store) cache_identity
              demo_LOADING demo_EPOCH demo_user demo_fl 20 7 (purge_all 100) demo_now []
              eq_refl) as [H _].
  apply H. reflexivity.
Defined.

Example purge_own_loading_run :
  demo_purge (channel_server own_loading_store) 20 (purge_all 100) demo_now =
    (Return 2,
     [Http (http.get_channel_messages 7 100 None None None);
      Cache (mkMessage 3 demo_user demo_LOADING); Cache (mkMessage 2 0 0);
      Cache (mkMessage 1 demo_user 0);
      Http (http.get_channel_messages 7 97 None (Some 1) None);
      Http (http.bulk_delete_messages 7 [1; 2] None)]).
Proof. vm_compute. reflexivity. Qed.

Lemma purge_single_message_witness :
  exists acc evs,
    demo_scan (channel_server (countdown 1)) 5 (purge_all 100) demo_now = (Return acc, evs) /\
    length acc = 1%nat /\
    filter is_delete
      (requests (snd (demo_purge (channel_server (countdown 1)) 5 (purge_all 100) demo_now))) =
      [http.delete_message 7 1 None].
Proof.
  eexists. eexists. split; [vm_compute; reflexivity|]. split; [reflexivity|].
  destruct (purge_single_message (channel_server (countdown 1)) cache_identity
              demo_LOADING demo_EPOCH demo_user demo_fl 5 7 (purge_all 100) demo_now []
              _ _ eq_refl eq_refl) as (x & Hx & _ & Hd & _).
  injection Hx as <-. exact Hd.
Defined.

Lemma channel_server_honours_limit store : honours_limit (channel_server store).
Proof.
  intros w c lim ar b a data Hl. cbn.
  destruct (truthy a); [|destruct (truthy ar)]; intros [= <-];
    rewrite ?length_rev, length_firstn; lia.
Qed.

(** A purge of a channel of 150 messages with [search_limit=150] answers
    with 151 steps of fuel. *)
Example purge_ends_run :
  fst (demo_purge (channel_server (countdown 150)) 151 (purge_all 150) demo_now)
  <> Timeout.
Proof.
  apply purge_ends; [apply channel_server_honours_limit | reflexivity | cbn; lia].
Qed.

Lemma channel_server_accepts_deletions store w r :
  is_delete r = true -> exists d, channel_server store w r = inr d.
Proof.
  destruct r; [discriminate | |]; intros _; exists []; reflexivity.
Qed.

Lemma purge_batching_witness :
  exists acc evs b1 b2,
    demo_scan (channel_server (countdown 150)) 200 (purge_all 150) demo_now =
      (Return acc, evs) /\
    length acc = 150%nat /\
    demo_purge (channel_server (countdown 150)) 200 (purge_all 150) demo_now =
      (Return 150,
       evs ++ [Http (http.bulk_delete_messages 7 b1 None);
               Http (http.bulk_delete_messages 7 b2 None)]) /\
    length b1 = 100%nat /\ length b2 = 50%nat.
Proof.
  destruct (demo_scan (channel_server (countdown 150)) 200 (purge_all 150) demo_now)
    as [o evs] eqn:Es.
  assert (Ho : o = Return (map id (countdown 150))).
  { apply (f_equal fst) in Es. cbn [fst] in Es. rewrite <- Es. vm_compute. reflexivity. }
  subst o.
  destruct (purge_batching (channel_server (countdown 150)) cache_identity
              demo_LOADING demo_EPOCH demo_user demo_fl 200 7 (purge_all 150) demo_now []
              _ _ Es (channel_server_accepts_deletions (countdown 150)))
    as (_ & _ & _ & _ & Hp & _ & _ & H150).
  destruct (H150 eq_refl) as (b1 & b2 & Hreqs & H1 & H2).
  exists (map id (countdown 150)), evs, b1, b2.
  split; [reflexivity|]. split; [reflexivity|].
  split; [|split; assumption].
  unfold demo_purge. rewrite Hp, Hreqs. reflexivity.
Defined.

Lemma purge_101_single_bulk :
  let out := demo_purge (channel_server (countdown 101)) 200 (purge_all 101) demo_now in
  fst out = Return 101 /\
  length (filter is_bulk_delete (requests (snd out))) <> ((101 + 99) / 100)%nat /\
  length (filter is_bulk_delete (requests (snd out))) = 1%nat /\
  length (filter is_single_delete (requests (snd out))) = 1%nat.
Proof.
  vm_compute. repeat split; congruence.
Qed.

Lemma purge_count_and_failure_witness :
  exists acc evs k,
    demo_scan (failing_server (countdown 150) 1 (HTTPException 500)) 200
              (purge_all 150) demo_now = (Return acc, evs) /\
    (k <= 2)%nat /\
    snd (demo_purge (failing_server (countdown 150) 1 (HTTPException 500)) 200
                    (purge_all 150) demo_now) =
      evs ++ map Http (firstn k (map (batch_request 7 None) (purge_batches acc))).
Proof.
  destruct (demo_scan (failing_server (countdown 150) 1 (HTTPException 500)) 200
                      (purge_all 150) demo_now) as [o evs] eqn:Es.
  assert (Ho : o = Return (map id (countdown 150))).
  { apply (f_equal fst) in Es. cbn [fst] in Es. rewrite <- Es. vm_compute. reflexivity. }
  subst o.
  destruct (purge_count_and_failure (failing_server (countdown 150) 1 (HTTPException 500))
              cache_identity demo_LOADING demo_EPOCH demo_user demo_fl 200 7 (purge_all 150)
              demo_now [] _ _ Es) as (k & Hk & Hev & _).
  exists (map id (countdown 150)), evs, k.
  split; [reflexivity|]. split; [exact Hk | exact Hev].
Defined.

Example purge_failure_run :
  let out := demo_purge (failing_server (countdown 150) 1 (HTTPException 500)) 200
                        (purge_all 150) demo_now in
  fst out = Raise (HTTPException 500) /\
  map (fun r => length (request_ids r)) (filter is_delete (requests (snd out))) =
    [100%nat; 50%nat].
Proof. vm_compute. split; reflexivity. Qed.

Lemma purge_scan_limits_witness :
  (exists acc evs,
     demo_scan (channel_server (countdown 200)) 300
               (mkPurgeArgs 20 200 None true None None None None) demo_now =
       (Return acc, evs) /\
     Z.of_nat (length acc) <= 20) /\
  (exists msgs evs,
     flatten (channel_server (countdown 150)) cache_identity 300
             (purge_history 7 (purge_all 150)) [] = (Return msgs, evs) /\
     demo_scan (channel_server (countdown 150)) 300 (purge_all 150) demo_now =
       (Return (map id (filter (selected demo_LOADING demo_user accept_all true
                                         (fourteen_days_ago demo_EPOCH demo_fl demo_now)) msgs)),
        evs)).
Proof.
  split.
  - destruct (demo_scan (channel_server (countdown 200)) 300
                (mkPurgeArgs 20 200 None true None None None None) demo_now)
      as [o evs] eqn:Es.
    assert (Ho : o = Return (map id (firstn 20 (countdown 200)))).
    { apply (f_equal fst) in Es. cbn [fst] in Es. rewrite <- Es. vm_compute. reflexivity. }
    subst o. eexists. eexists. split; [reflexivity|].
    destruct (purge_scan_limits (channel_server (countdown 200)) cache_identity
                demo_LOADING demo_EPOCH demo_user demo_fl 300 7
                (mkPurgeArgs 20 200 None true None None None None) demo_now [])
      as [H _].
    destruct (H ltac:(cbn; lia)) as (_ & _ & Hb). exact (Hb _ _ Es).
  - destruct (flatten (channel_server (countdown 150)) cache_identity 300
                (purge_history 7 (purge_all 150)) []) as [o evs] eqn:Ef.
    assert (Ho : o = Return (countdown 150)).
    { apply (f_equal fst) in Ef. cbn [fst] in Ef. rewrite <- Ef. vm_compute. reflexivity. }
    subst o. eexists. eexists. split; [reflexivity|].
    destruct (purge_scan_limits (channel_server (countdown 150)) cache_identity
                demo_LOADING demo_EPOCH demo_user demo_fl 300 7 (purge_all 150) demo_now [])
      as [_ H].
    destruct (H eq_refl) as (_ & Hs & _).
    unfold demo_scan. rewrite Hs, Ef. reflexivity.
Defined.

(** In the around mode the scan stops after one page: 100 messages examined
    of the 150 asked for, and the page was not empty. *)
Lemma purge_around_stops_early :
  exists msgs evs,
    flatten (channel_server (countdown 200)) cache_identity 300
            (purge_history 7 purge_around_args) [] = (Return msgs, evs) /\
    fst (demo_scan (channel_server (countdown 200)) 300 purge_around_args demo_now) =
      Return (map id msgs) /\
    ~ (search_limit purge_around_args <= Z.of_nat (length msgs)) /\
    ~ ends_on_empty_page (channel_server (countdown 200)) [] evs.
Proof.
  eexists. eexists. split; [vm_compute; reflexivity|].
  split; [vm_compute; reflexivity|]. split.
  - vm_compute. intros H. apply H. reflexivity.
  - intros (evs0 & r & He & _).
    apply (f_equal (fun l => List.last l (Http r))) in He.
    rewrite last_last in He. vm_compute in He. discriminate.
Qed.

Lemma around_fetches_once_witness :
  truthy None = false /\ truthy (Some 100) = true /\
  Nat.le
    (length (requests (snd (flatten (channel_server (countdown 200)) cache_identity 300
                                    (ChannelHistory_init 7 0 None None (Some 100)) []))))
    1.
Proof.
  split; [reflexivity|]. split; [reflexivity|].
  destruct (around_fetches_once (channel_server (countdown 200)) cache_identity
              7 0 None None (Some 100) eq_refl eq_refl) as [H _].
  destruct (H _ collect 300%nat [] []) as [E|E]; unfold flatten; rewrite E; simpl; lia.
Defined.

Example history_precedence_run :
  flatten (channel_server (countdown 5)) cache_identity 10
          (ChannelHistory_init 7 0 (Some 4) (Some 2) (Some 3)) [] =
  flatten (channel_server (countdown 5)) cache_identity 10
          (ChannelHistory_init 7 0 None (Some 2) None) [].
Proof. vm_compute. reflexivity. Qed.

(** ** More properties of the purge and of the calls under it *)

Section MoreProperties.

Variable server : Trace -> http.request -> exn + list Message.
Variable place_message_data : Message -> Message.
Variable LOADING : Z.
Variable DISCORD_EPOCH : Z.
Variable client_user_id : Z.
Variable fl : Q -> Q.

Local Notation async_for' := (async_for server place_message_data).
Local Notation selected' := (selected LOADING client_user_id).
Local Notation purge_body' := (purge_body LOADING client_user_id).
Local Notation cutoff' := (fourteen_days_ago DISCORD_EPOCH fl).
Local Notation purge_scan' :=
  (purge_scan server place_message_data LOADING DISCORD_EPOCH client_user_id fl).
Local Notation purge' :=
  (purge server place_message_data LOADING DISCORD_EPOCH client_user_id fl).
Local Notation purge_watched' fuel self a now :=
  (async_for server place_message_data fuel (purge_history self a)
     (watch (purge_body LOADING client_user_id (deletion_limit a) (purge_predicate a)
                        (avoid_loading_msg a) (fourteen_days_ago DISCORD_EPOCH fl now)))
     ([], [])).

(** The scan and its watched run are one run. *)
Lemma purge_watched_scan fuel self a now w acc seen evs :
  purge_watched' fuel self a now w = (Return (acc, seen), evs) ->
  purge_scan' fuel self a now w = (Return acc, evs) /\
  acc = loop_fold (purge_body' (deletion_limit a) (purge_predicate a)
                               (avoid_loading_msg a) (cutoff' now)) seen [].
Proof.
  intros Hw.
  destruct (async_for_watch server place_message_data
              (purge_body' (deletion_limit a) (purge_predicate a)
                           (avoid_loading_msg a) (cutoff' now))
              fuel (purge_history self a) [] [] w) as [H1 H2].
  rewrite Hw in H1, H2. cbn [fst snd map_result] in H1, H2.
  split.
  - unfold purge_scan. fold (purge_predicate a) (purge_history self a).
    destruct (async_for' fuel (purge_history self a) _ [] w) as [o evs']; cbn in *.
    now subst.
  - destruct (async_for_watch_fold server place_message_data _ _ _ _ _ _ _ _ _ Hw)
      as (new & Hn & Hs).
    cbn in Hn. now subst.
Qed.

Lemma purge_fold_capped dl pred avoid cutoff : forall msgs acc,
  0 < dl -> Z.of_nat (length acc) <= dl ->
  loop_fold (purge_body' dl pred avoid cutoff) msgs acc =
    acc ++ firstn (Z.to_nat dl - length acc)
                  (map id (filter (selected' pred avoid cutoff) msgs)).
Proof.
  induction msgs as [|m msgs IH]; intros acc Hd Ha.
  - cbn. now rewrite firstn_nil, app_nil_r.
  - cbn [loop_fold]. rewrite purge_body_eq.
    destruct (Z.eqb_spec dl 0); [lia|]. cbn [negb andb].
    destruct (Z.eqb_spec (Z.of_nat (length acc)) dl) as [E|E].
    + replace (Z.to_nat dl - length acc)%nat with 0%nat by lia.
      cbn. now rewrite app_nil_r.
    + cbn [filter]. destruct (selected' pred avoid cutoff m).
      * rewrite IH by (rewrite ?length_app; cbn [length]; lia).
        rewrite length_app. cbn [length map].
        replace (Z.to_nat dl - length acc)%nat
          with (S (Z.to_nat dl - (length acc + 1)))%nat by lia.
        cbn [firstn]. now rewrite <- app_assoc.
      * now apply IH.
Qed.

Lemma purge_fold_uncapped dl pred avoid cutoff : forall msgs acc,
  dl <= 0 ->
  loop_fold (purge_body' dl pred avoid cutoff) msgs acc =
    acc ++ map id (filter (selected' pred avoid cutoff) msgs).
Proof.
  induction msgs as [|m msgs IH]; intros acc Hd.
  - cbn. now rewrite app_nil_r.
  - cbn [loop_fold]. rewrite purge_body_eq.
    assert (negb (dl =? 0) && (Z.of_nat (length acc) =? dl) = false) as ->.
    { destruct (Z.eqb_spec dl 0); [reflexivity|].
      destruct (Z.eqb_spec (Z.of_nat (length acc)) dl); [lia | reflexivity]. }
    rewrite IH by exact Hd. cbn [filter].
    destruct (selected' pred avoid cutoff m); [|reflexivity].
    cbn. now rewrite <- app_assoc.
Qed.

(** X1: what the scan of [purge] accumulates is, in the order the iterator
    handed the messages out, the IDs of those the predicate accepts, that are
    not the bot's own loading messages when these are to be avoided, and that
    are not older than the cutoff: the first [deletion_limit] of them when the
    limit is positive, all of them otherwise. *)
Theorem purge_selects_first fuel self a now w acc seen evs :
  purge_watched' fuel self a now w = (Return (acc, seen), evs) ->
  purge_scan' fuel self a now w = (Return acc, evs) /\
  acc = purge_choice LOADING client_user_id a (cutoff' now) seen.
Proof.
  intros Hw. destruct (purge_watched_scan _ _ _ _ _ _ _ _ Hw) as [Hs Hacc].
  split; [exact Hs|]. rewrite Hacc. unfold purge_choice.
  destruct (Z.ltb_spec 0 (deletion_limit a)).
  - rewrite purge_fold_capped by (cbn; lia). cbn [app length].
    now rewrite Nat.sub_0_r.
  - now rewrite purge_fold_uncapped by lia.
Qed.

Lemma async_for_ext {S : Type} (body1 body2 : Message -> S -> bool * S) :
  (forall m s, body1 m s = body2 m s) ->
  forall fuel h s w, async_for' fuel h body1 s w = async_for' fuel h body2 s w.
Proof.
  intros Hb. induction fuel as [|f IH]; intros h s w; [reflexivity|].
  rewrite !async_for_unfold.
  destruct (anext server place_message_data h w) as [[[[m h']|]|e|] evs];
    try reflexivity.
  now rewrite Hb, IH.
Qed.

(** X2: a negative [deletion_limit] caps nothing: the length of [to_delete]
    never equals it, so [purge] runs exactly as with [deletion_limit = 0]. *)
Theorem purge_negative_limit fuel self a now w :
  deletion_limit a < 0 ->
  purge' fuel self a now w = purge' fuel self (with_deletion_limit a 0) now w.
Proof.
  intros Hd.
  assert (Hscan : purge_scan' fuel self a now w =
                  purge_scan' fuel self (with_deletion_limit a 0) now w).
  { unfold purge_scan. cbn [with_deletion_limit search_limit predicate
      avoid_loading_msg purge_before purge_after purge_around deletion_limit].
    apply async_for_ext. intros m s. rewrite !purge_body_eq.
    destruct (Z.eqb_spec (deletion_limit a) 0); [lia|].
    destruct (Z.eqb_spec (Z.of_nat (length s)) (deletion_limit a)); [lia|].
    reflexivity. }
  rewrite !purge_run, Hscan. reflexivity.
Qed.

(** X3: whatever happens, a bulk deletion that [purge] asks for carries
    between 2 and 100 IDs, and its requests are page requests first and
    deletions after that only; [delete_messages] itself checks no bound. *)
Theorem purge_bulk_bounds fuel self a now w :
  (forall r,
      In r (requests (snd (purge' fuel self a now w))) ->
      is_bulk_delete r = true ->
      (2 <= length (request_ids r) <= 100)%nat) /\
  (exists gets dels,
      requests (snd (purge' fuel self a now w)) = gets ++ dels /\
      Forall (fun r => is_get r = true) gets /\
      Forall (fun r => is_delete r = true) dels) /\
  (forall ids w', (length ids <> 1)%nat ->
      snd (delete_messages server self ids (reason a) w') =
        [Http (http.bulk_delete_messages self ids (reason a))]).
Proof.
  pose proof (async_for_requests_get server place_message_data
                (purge_body' (deletion_limit a) (purge_predicate a)
                             (avoid_loading_msg a) (cutoff' now))
                fuel (purge_history self a) [] w) as Hget.
  change (Forall (fun r => is_get r = true)
                 (requests (snd (purge_scan' fuel self a now w)))) in Hget.
  assert (Hshape : exists gets bs,
             requests (snd (purge' fuel self a now w)) =
               gets ++ map (batch_request self (reason a)) bs /\
             Forall (fun r => is_get r = true) gets /\
             Forall (fun b => (1 <= length b <= 100)%nat) bs).
  { rewrite purge_run.
    destruct (purge_scan' fuel self a now w) as [[acc|e|] evs1]; cbn [snd] in *.
    - destruct (delete_batches_run server self (reason a) (purge_batches acc) (w ++ evs1))
        as (k & _ & Hev & _).
      exists (requests evs1), (firstn k (purge_batches acc)).
      rewrite Hev, requests_app, requests_Http, firstn_map.
      split; [reflexivity|]. split; [exact Hget|].
      apply Forall_forall. intros b Hb.
      pose proof (purge_batches_bounds acc) as Hall.
      rewrite Forall_forall in Hall. apply Hall.
      rewrite <- (firstn_skipn k (purge_batches acc)).
      apply in_or_app. now left.
    - exists (requests evs1), []. cbn. rewrite app_nil_r. auto.
    - exists (requests evs1), []. cbn. rewrite app_nil_r. auto. }
  destruct Hshape as (gets & bs & Hreq & Hg & Hb).
  split; [|split].
  - intros r Hin Hbulk. rewrite Hreq in Hin. apply in_app_or in Hin.
    destruct Hin as [Hin|Hin].
    + rewrite Forall_forall in Hg. apply Hg in Hin. destruct r; discriminate.
    + apply in_map_iff in Hin. destruct Hin as (b & <- & Hin).
      rewrite Forall_forall in Hb. apply Hb in Hin.
      unfold batch_request in *.
      destruct (Nat.eqb_spec (length b) 1); [discriminate|]. cbn. lia.
  - exists gets, (map (batch_request self (reason a)) bs).
    split; [exact Hreq|]. split; [exact Hg|].
    apply Forall_map, Forall_forall. intros b _. apply is_delete_batch_request.
  - intros ids w' Hl. rewrite delete_messages_run. cbn [snd].
    unfold batch_request. destruct (Nat.eqb_spec (length ids) 1); [lia | reflexivity].
Qed.

Lemma batch_requests_ids self reason : forall bs,
  Forall (fun b => (1 <= length b <= 100)%nat) bs ->
  flat_map request_ids (map (batch_request self reason) bs) = concat bs.
Proof.
  induction 1 as [|b bs Hb _ IH]; [reflexivity|].
  cbn [map flat_map concat]. rewrite IH. f_equal.
  apply request_ids_batch. destruct b; [simpl in Hb; lia | discriminate].
Qed.

(** X4: when no deletion is refused, [purge] asks to delete exactly the IDs
    its scan accumulated, each once, last accumulated first, and returns
    their number. *)
Theorem purge_deletes_accumulated fuel self a now w acc evs :
  purge_scan' fuel self a now w = (Return acc, evs) ->
  (forall w' r, is_delete r = true -> exists d, server w' r = inr d) ->
  fst (purge' fuel self a now w) = Return (Z.of_nat (length acc)) /\
  deleted_ids (snd (purge' fuel self a now w)) = rev acc.
Proof.
  intros Hs Hok. rewrite purge_run, Hs. cbn [fst snd].
  pose proof (scan_deletes_nothing server place_message_data LOADING DISCORD_EPOCH
                client_user_id fl fuel self a now w) as [_ Hnd].
  rewrite Hs in Hnd. cbn [snd] in Hnd.
  destruct (delete_batches_run server self (reason a) (purge_batches acc) (w ++ evs))
    as (k & Hk & Hev & [(Ho & -> & _) | (j & r & e & _ & Hn & _ & Hr & _)]).
  - rewrite Ho, Hev. split; [reflexivity|].
    rewrite deleted_ids_app, Hnd. cbn [app]. unfold deleted_ids.
    rewrite requests_Http.
    rewrite <- (length_map (batch_request self (reason a))), firstn_all.
    rewrite batch_requests_ids by apply purge_batches_bounds.
    apply purge_batches_concat.
  - apply nth_error_In, in_map_iff in Hn. destruct Hn as (b & <- & _).
    destruct (Hok (w ++ evs ++
                     map Http (firstn j (map (batch_request self (reason a))
                                             (purge_batches acc))))
                  (batch_request self (reason a) b)
                  (is_delete_batch_request _ _ _)) as [d Hd].
    rewrite <- app_assoc in Hr. congruence.
Qed.

(** A loop over the iterator raises only what the remote side answered to
    the page request it made last. *)
Lemma async_for_raises {S : Type} (body : Message -> S -> bool * S) :
  forall fuel h s w e evs,
    async_for' fuel h body s w = (Raise e, evs) ->
    exists evs0 r,
      evs = evs0 ++ [Http r] /\ is_get r = true /\ server (w ++ evs0) r = inl e.
Proof.
  induction fuel as [|f IH]; intros h s w e evs; [discriminate|].
  rewrite async_for_unfold, anext_run.
  destruct (_queue h) as [|m q].
  - destruct (_continue h); [|discriminate].
    destruct (server w (fetch_request h)) as [e'|data] eqn:Es.
    + intros [= <- <-]. exists [], (fetch_request h). rewrite app_nil_r.
      repeat split; [apply is_get_fetch_request | exact Es].
    + destruct (fetch_page place_message_data h data) as [|m q]; [discriminate|].
      destruct (fst (body m s)); [discriminate|].
      destruct (async_for' f _ body _ _) as [o evs1] eqn:Ea. cbn [fst snd].
      intros [= -> <-]. apply IH in Ea. destruct Ea as (evs0 & r & -> & Hg & Hr).
      exists ((Http (fetch_request h) :: map Cache data) ++ evs0), r.
      rewrite <- !app_assoc in *. auto.
  - destruct (fst (body m s)); [discriminate|].
    destruct (async_for' f _ body _ _) as [o evs1] eqn:Ea. cbn [fst snd app].
    intros [= -> <-]. apply IH in Ea. destruct Ea as (evs0 & r & -> & Hg & Hr).
    exists evs0, r. rewrite app_nil_r in Hr. auto.
Qed.

(** X5: when the scan of [purge] fails, [purge] raises that very error,
    which is the one the HTTP client raised on the page request made last,
    and it has asked for no deletion: the limit check of [get_messages]
    never fires under the iterator. *)
Theorem purge_scan_failure fuel self a now w e evs :
  purge_scan' fuel self a now w = (Raise e, evs) ->
  purge' fuel self a now w = (Raise e, evs) /\
  deleted_ids evs = [] /\
  exists evs0 r,
    evs = evs0 ++ [Http r] /\ is_get r = true /\ server (w ++ evs0) r = inl e.
Proof.
  intros Hs. split; [now rewrite purge_run, Hs|]. split.
  - pose proof (scan_deletes_nothing server place_message_data LOADING DISCORD_EPOCH
                  client_user_id fl fuel self a now w) as [_ Hnd].
    now rewrite Hs in Hnd.
  - unfold purge_scan in Hs. now apply async_for_raises in Hs.
Qed.

Lemma NoDup_map_filter {A B} (f : A -> B) (p : A -> bool) : forall l,
  NoDup (map f l) -> NoDup (map f (filter p l)).
Proof.
  induction l as [|x l IH]; intros H; [constructor|].
  cbn in H. inversion H as [|? ? Hx Hl]; subst. cbn [filter].
  destruct (p x); [|now apply IH]. cbn [map]. constructor; [|now apply IH].
  intros Hin. apply Hx. apply in_map_iff in Hin. destruct Hin as (y & Hy & Hin).
  apply filter_In in Hin. apply in_map_iff. exists y. tauto.
Qed.

Lemma NoDup_firstn {A} n (l : list A) : NoDup l -> NoDup (firstn n l).
Proof.
  intros H. rewrite <- (firstn_skipn n l) in H. now apply NoDup_app_remove_r in H.
Qed.

(** X17: [purge] checks no duplicates, but when the messages the iterator
    handed to its loop have distinct IDs, no ID is asked to be deleted twice,
    however the purge ends. *)
Theorem purge_deletes_once fuel self a now w acc seen evs :
  purge_watched' fuel self a now w = (Return (acc, seen), evs) ->
  NoDup (map id seen) ->
  NoDup (deleted_ids (snd (purge' fuel self a now w))).
Proof.
  intros Hw Hnd. destruct (purge_watched_scan _ _ _ _ _ _ _ _ Hw) as [Hs Hacc].
  assert (Ha : NoDup acc).
  { rewrite Hacc.
    destruct (Z.ltb_spec 0 (deletion_limit a)).
    - rewrite purge_fold_capped by (cbn; lia). cbn [app].
      now apply NoDup_firstn, NoDup_map_filter.
    - rewrite purge_fold_uncapped by lia. cbn [app].
      now apply NoDup_map_filter. }
  rewrite purge_run, Hs. cbn [snd].
  pose proof (scan_deletes_nothing server place_message_data LOADING DISCORD_EPOCH
                client_user_id fl fuel self a now w) as [_ Hn].
  rewrite Hs in Hn. cbn [snd] in Hn. rewrite deleted_ids_app, Hn. cbn [app].
  destruct (delete_batches_run server self (reason a) (purge_batches acc) (w ++ evs))
    as (k & _ & Hev & _).
  rewrite Hev. unfold deleted_ids. rewrite requests_Http, firstn_map.
  rewrite batch_requests_ids.
  - apply NoDup_rev in Ha. rewrite <- purge_batches_concat in Ha.
    rewrite <- (firstn_skipn k (purge_batches acc)), concat_app in Ha.
    now apply NoDup_app_remove_r in Ha.
  - apply Forall_forall. intros b Hb.
    pose proof (purge_batches_bounds acc) as Hall.
    rewrite Forall_forall in Hall. apply Hall.
    rewrite <- (firstn_skipn k (purge_batches acc)).
    apply in_or_app. now left.
Qed.

Lemma below_shiftl x y : x < Z.shiftl y 22 <-> Z.shiftr x 22 < y.
Proof.
  rewrite Z.shiftl_mul_pow2, Z.shiftr_div_pow2 by lia.
  change (2 ^ 22) with 4194304.
  pose proof (Z.div_mod x 4194304 ltac:(lia)) as E.
  pose proof (Z.mod_pos_bound x 4194304 ltac:(lia)) as B.
  lia.
Qed.

Lemma int_nonneg (v : Q) (t : Z) :
  (0 <= v)%Q -> (t < int v <-> (inject_Z t + 1 <= v)%Q).
Proof.
  destruct v as [n d]. unfold int, Qle. cbn. intros Hn.
  assert (Hn' : 0 <= n) by lia.
  rewrite Z.quot_div_nonneg by lia.
  pose proof (Z.mul_div_le n (Z.pos d) ltac:(lia)) as Hle.
  split; intros H.
  - nia.
  - assert (t + 1 <= n / Z.pos d); [|lia].
    apply Z.div_le_lower_bound; [lia|nia].
Qed.

Lemma int_compat (x y : Q) : (x == y)%Q -> int x = int y.
Proof.
  destruct x as [a b], y as [c d]. unfold Qeq, int. cbn. intros E.
  rewrite <- (Z.quot_mul_cancel_r a (Z.pos b) (Z.pos d)) by lia.
  rewrite <- (Z.quot_mul_cancel_r c (Z.pos d) (Z.pos b)) by lia.
  rewrite E, (Z.mul_comm (Z.pos b)). reflexivity.
Qed.

(** Where the floats round nothing, a clock that reads [n] whole seconds
    gives the cutoff of the integers. *)
Lemma fourteen_days_ago_exact (n : Z) :
  (forall x, (fl x == x)%Q) ->
  fourteen_days_ago DISCORD_EPOCH fl (inject_Z n) =
    Z.shiftl ((n - 1209600) * 1000 - DISCORD_EPOCH) 22.
Proof.
  intros Hfl. unfold fourteen_days_ago. f_equal.
  transitivity (int (inject_Z ((n - 1209600) * 1000 - DISCORD_EPOCH))).
  - apply int_compat. unfold float_sub, float_mul, float_of_int.
    rewrite (Hfl (_ - _)%Q), (Hfl (_ * _)%Q), (Hfl (_ - _)%Q), !(Hfl (inject_Z _)).
    unfold Qeq, Qminus, Qplus, Qmult, Qopp, inject_Z. cbn. ring.
  - unfold int. cbn. apply Z.quot_1_r.
Qed.

(** X18: the cutoff test of [purge] reads the timestamp of the snowflake
    against the truncated float.  With [v] the float that line 321 hands to
    [int], a message is too old exactly when [id >> 22], its creation time in
    milliseconds since DISCORD_EPOCH, is below [int(v)]; a message is selected
    exactly when the predicate accepts it, it is not one of the bot's own
    loading messages to avoid, and its timestamp is at least [int(v)]; and for
    [v] not negative the test is [timestamp + 1 <= v], so that a message
    created in the millisecond [v] falls in is kept. *)
Theorem cutoff_is_fourteen_days now pred avoid m :
  let v := float_sub fl (float_mul fl (float_sub fl now (float_of_int fl 1209600))
                                   (1000 # 1))
                     (float_of_int fl DISCORD_EPOCH) in
  (id m < fourteen_days_ago DISCORD_EPOCH fl now <-> Z.shiftr (id m) 22 < int v) /\
  (selected LOADING client_user_id pred avoid (fourteen_days_ago DISCORD_EPOCH fl now) m
   = true <->
   pred m = true /\
   avoid && is_own_loading LOADING client_user_id m = false /\
   int v <= Z.shiftr (id m) 22) /\
  ((0 <= v)%Q ->
   (id m < fourteen_days_ago DISCORD_EPOCH fl now <->
    (inject_Z (Z.shiftr (id m) 22) + 1 <= v)%Q)).
Proof.
  intros v.
  assert (H : id m < cutoff' now <-> Z.shiftr (id m) 22 < int v).
  { unfold fourteen_days_ago. fold v. apply below_shiftl. }
  split; [exact H|]. split.
  - unfold selected. rewrite !andb_true_iff, !negb_true_iff, Z.ltb_ge.
    split.
    + intros [[H1 H2] H3]. split; [exact H1|]. split; [exact H2|].
      apply Z.nlt_ge. intros Hlt. apply H in Hlt. lia.
    + intros (H1 & H2 & H3). split; [split; assumption|].
      apply Z.nlt_ge. intros Hlt. apply H in Hlt. lia.
  - intros Hv. rewrite H. now apply int_nonneg.
Qed.

End MoreProperties.

(** ** Invites: what is refused and what is sent *)

Section InviteProperties.

Variable STREAM : Z.
Variable EMBEDDED_APPLICATION : Z.
Variable InviteData : Type.
Variable Invite : Type.
Variable http_create_channel_invite :
  InvitableMixin.create_channel_invite -> exn + InviteData.
Variable Invite_from_dict : InviteData -> Invite.

Local Notation create_invite' :=
  (InvitableMixin.create_invite STREAM EMBEDDED_APPLICATION InviteData Invite
     http_create_channel_invite Invite_from_dict).

Lemma truthy_to_snowflake s : truthy (option_map to_snowflake s) = truthy s.
Proof. now destruct s. Qed.

(** X6: [InvitableMixin.create_invite] raises ValueError, and asks nothing
    of the HTTP client, when both a target user and a target application are
    given, when the target type is STREAM and no target user is given, and
    when it is EMBEDDED_APPLICATION and no target application is given. *)
Theorem create_invite_rejects self max_age max_uses temporary unique
        target_type target_user target_application reason :
  (truthy target_user = true -> truthy target_application = true ->
   InvitableMixin.create_invite STREAM EMBEDDED_APPLICATION InviteData Invite
     http_create_channel_invite Invite_from_dict
     self max_age max_uses temporary unique target_type target_user
     target_application reason =
   (inl (ValueError
           "Invite target must be either User or Embedded Application, not both."),
    [])) /\
  (STREAM <> 0 -> target_type = Some STREAM -> truthy target_user = false ->
   create_invite' self max_age max_uses temporary unique target_type target_user
     target_application reason =
   (inl (ValueError "Stream target must include target user id."), [])) /\
  (EMBEDDED_APPLICATION <> 0 -> EMBEDDED_APPLICATION <> STREAM ->
   target_type = Some EMBEDDED_APPLICATION -> truthy target_application = false ->
   create_invite' self max_age max_uses temporary unique target_type target_user
     target_application reason =
   (inl (ValueError
           "Embedded Application target must include target application id."),
    [])).
Proof.
  unfold InvitableMixin.create_invite. split; [|split].
  - intros Hu Ha. rewrite Hu, Ha. cbn [negb andb].
    now rewrite !andb_false_r.
  - intros Hs -> Hu. rewrite Hu. cbn [truthy InvitableMixin.is_type negb].
    rewrite Z.eqb_refl. destruct (Z.eqb_spec STREAM 0); [contradiction | reflexivity].
  - intros He Hne -> Ha. rewrite Ha. cbn [truthy InvitableMixin.is_type negb].
    rewrite Z.eqb_refl.
    destruct (Z.eqb_spec EMBEDDED_APPLICATION 0); [contradiction|].
    destruct (Z.eqb_spec EMBEDDED_APPLICATION STREAM); [contradiction|].
    reflexivity.
Qed.

(** X7: a call that [InvitableMixin.create_invite] makes is its only one,
    and its targets agree with its target type: never both a user and an
    application; with a user the type is STREAM, with an application it is
    EMBEDDED_APPLICATION, whatever type was given; with neither, the type is
    the one given, and that is no truthy STREAM or EMBEDDED_APPLICATION. *)
Theorem create_invite_sends_consistent self max_age max_uses temporary unique
        target_type target_user target_application reason call :
  In call (snd (InvitableMixin.create_invite STREAM EMBEDDED_APPLICATION InviteData
                  Invite http_create_channel_invite Invite_from_dict
                  self max_age max_uses temporary unique target_type target_user
                  target_application reason)) ->
  snd (create_invite' self max_age max_uses temporary unique target_type target_user
         target_application reason) = [call] /\
  InvitableMixin.channel_id call = self /\
  InvitableMixin.target_user call = target_user /\
  InvitableMixin.target_application call = target_application /\
  truthy target_user && truthy target_application = false /\
  (truthy target_user = true -> InvitableMixin.target_type call = Some STREAM) /\
  (truthy target_user = false -> truthy target_application = true ->
   InvitableMixin.target_type call = Some EMBEDDED_APPLICATION) /\
  (truthy target_user = false -> truthy target_application = false ->
   InvitableMixin.target_type call = target_type /\
   (truthy target_type = true ->
    target_type <> Some STREAM /\ target_type <> Some EMBEDDED_APPLICATION)).
Proof.
  unfold InvitableMixin.create_invite.
  destruct (truthy target_type && _) eqn:E1; [contradiction|].
  destruct (truthy target_type && (InvitableMixin.is_type target_type EMBEDDED_APPLICATION && _))
    eqn:E2; [contradiction|].
  destruct (truthy target_user && truthy target_application) eqn:E3; [contradiction|].
  cbn zeta.
  set (c := InvitableMixin.mk_create_channel_invite _ _ _ _ _ _ _ _ _).
  intros Hin.
  assert (Hc : call = c).
  { destruct (http_create_channel_invite c); cbn in Hin; intuition congruence. }
  subst call.
  split; [destruct (http_create_channel_invite c); reflexivity|].
  split; [reflexivity|].
  split; [subst c; cbn; destruct target_user; reflexivity|].
  split; [subst c; cbn; destruct target_application; reflexivity|].
  split; [reflexivity|]. subst c. cbn.
  split; [intros ->; reflexivity|].
  split; [intros -> ->; reflexivity|].
  intros Hu Ha. rewrite Hu, Ha in *. split; [reflexivity|].
  intros Ht. rewrite Ht in E1, E2. cbn [negb andb] in E1, E2.
  rewrite andb_true_r in E1, E2. split; intros ->; cbn in E1, E2;
    rewrite Z.eqb_refl in *; discriminate.
Qed.

End InviteProperties.

(** ** Which [create_invite] a channel gets *)

(** X8: of the channel classes of [TYPE_CHANNEL_MAPPING], the ones that mix
    [InvitableMixin] in are GuildText, GuildNews, GuildVoice and
    GuildStageVoice, and each of them has GuildChannel before InvitableMixin
    in its method resolution order: the [create_invite] it gets is the one
    of GuildChannel, and no class of the mapping gets the one of
    InvitableMixin. *)
Theorem create_invite_resolution :
  filter (fun c => classes.isinstance c classes.InvitableMixin)
         classes.TYPE_CHANNEL_MAPPING_classes =
    [classes.GuildText; classes.GuildNews; classes.GuildVoice;
     classes.GuildStageVoice] /\
  (forall c,
      In c classes.TYPE_CHANNEL_MAPPING_classes ->
      classes.isinstance c classes.InvitableMixin = true ->
      classes.create_invite_of c = Some classes.GuildChannel) /\
  (forall c,
      In c classes.TYPE_CHANNEL_MAPPING_classes ->
      classes.create_invite_of c <> Some classes.InvitableMixin).
Proof.
  split; [vm_compute; reflexivity|]. split.
  - intros c Hc. cbn in Hc.
    repeat (destruct Hc as [<-|Hc]; [vm_compute; intros H; try reflexivity; discriminate|]).
    contradiction.
  - intros c Hc. cbn in Hc.
    repeat (destruct Hc as [<-|Hc]; [vm_compute; discriminate|]).
    contradiction.
Qed.

(** ** Threads: what is kept of the replies *)

Section ThreadProperties.

Import ThreadableMixin.

Variable ThreadList : Type.
Variable ThreadList_from_dict : threads_data -> ThreadList.
Variable server : list request -> request -> exn + threads_data.

Lemma split_threads_spec self : forall l cleaned removed,
  split_threads self l cleaned removed =
    (cleaned ++ filter (fun t => thread_parent_id t =? self) l,
     removed ++ map thread_id (filter (fun t => negb (thread_parent_id t =? self)) l)).
Proof.
  induction l as [|t l IH]; intros cleaned removed.
  - cbn. now rewrite !app_nil_r.
  - cbn [split_threads filter]. destruct (thread_parent_id t =? self); cbn [negb].
    + rewrite IH. now rewrite <- app_assoc.
    + rewrite IH. cbn [map]. now rewrite <- app_assoc.
Qed.

Lemma clean_members_spec removed : forall l cleaned,
  clean_members removed l cleaned =
    cleaned ++ filter (fun m => negb (existsb (Z.eqb (member_id m)) removed)) l.
Proof.
  induction l as [|m l IH]; intros cleaned.
  - cbn. now rewrite app_nil_r.
  - cbn [clean_members filter].
    destruct (negb (existsb (Z.eqb (member_id m)) removed)).
    + rewrite IH. now rewrite <- app_assoc.
    + apply IH.
Qed.

(** X9: given a reply with its threads and members, [get_active_threads]
    makes the one request and hands over the reply with, in their order, the
    threads whose parent is this channel and the member records whose ID is
    the ID of no thread of another parent; the other keys are as sent. *)
Theorem get_active_threads_keeps self guild_id w d ts ms :
  server w (list_active_threads guild_id) = inr d ->
  threads d = Some ts -> members d = Some ms ->
  exists d' ts' ms',
    ThreadableMixin.get_active_threads ThreadList ThreadList_from_dict server
      self guild_id w =
      (Returns (ThreadList_from_dict d'), [list_active_threads guild_id]) /\
    threads d' = Some ts' /\ members d' = Some ms' /\
    has_more d' = has_more d /\ data_id d' = data_id d /\
    ts' = filter (fun t => thread_parent_id t =? self) ts /\
    ms' = filter (fun m => forallb (fun t => negb (thread_id t =? member_id m)
                                             || (thread_parent_id t =? self)) ts) ms.
Proof.
  intros Hs Ht Hm. unfold get_active_threads. rewrite Hs, Ht.
  rewrite split_threads_spec. cbn [app set_threads members]. rewrite Hm.
  rewrite clean_members_spec. cbn [app].
  eexists. eexists. eexists. split; [reflexivity|]. cbn.
  repeat split. apply filter_ext. intros m. clear Ht.
  induction ts as [|t ts IH]; [reflexivity|]. cbn [filter forallb].
  destruct (thread_parent_id t =? self); cbn [negb map existsb].
  - rewrite orb_true_r. cbn [andb]. exact IH.
  - rewrite orb_false_r, <- IH, negb_orb. f_equal. f_equal. apply Z.eqb_sym.
Qed.

(** X10: when no two threads of the reply share an ID, a member record of a
    thread of the reply is kept by [get_active_threads] if and only if that
    thread is kept, that is, its parent is this channel. *)
Theorem get_active_threads_members_follow self (ts : list thread)
        (ms : list thread_member) t m :
  NoDup (map thread_id ts) ->
  In t ts -> In m ms -> member_id m = thread_id t ->
  (In m (clean_members (snd (split_threads self ts [] [])) ms []) <->
   In t (fst (split_threads self ts [] []))).
Proof.
  intros Hnd Ht Hm Hid. rewrite split_threads_spec, clean_members_spec.
  cbn [fst snd app]. rewrite !filter_In.
  split.
  - intros [_ Hk]. split; [exact Ht|].
    destruct (thread_parent_id t =? self) eqn:E; [reflexivity|].
    apply negb_true_iff in Hk.
    assert (Hex : existsb (Z.eqb (member_id m))
                    (map thread_id
                       (filter (fun t0 => negb (thread_parent_id t0 =? self)) ts)) = true).
    { apply existsb_exists. exists (thread_id t). split; [|rewrite Hid; apply Z.eqb_refl].
      apply in_map, filter_In. split; [exact Ht | now rewrite E]. }
    congruence.
  - intros [_ Hp]. split; [exact Hm|]. apply negb_true_iff.
    destruct (existsb _ _) eqn:Ex; [|reflexivity].
    apply existsb_exists in Ex. destruct Ex as (i & Hi & Heq).
    apply Z.eqb_eq in Heq. apply in_map_iff in Hi.
    destruct Hi as (t' & Hi' & Hf). apply filter_In in Hf. destruct Hf as [Ht' Hp'].
    assert (t' = t).
    { clear - Hnd Ht Ht' Hi' Heq Hid.
      induction ts as [|x ts IH]; [contradiction|].
      cbn in Hnd. inversion Hnd as [|? ? Hx Hnd']; subst.
      destruct Ht as [->|Ht], Ht' as [->|Ht']; auto.
      - exfalso. apply Hx. apply in_map_iff. exists t'. split; [lia | exact Ht'].
      - exfalso. apply Hx. apply in_map_iff. exists t. split; [lia | exact Ht]. }
    subst t'. rewrite Hp in Hp'. discriminate.
Qed.

(** X11: [get_archived_threads] asks for the private archived threads and
    then for the public ones; a refusal ends it at once with that error; and
    of two replies it hands over, under this channel's ID, every key of the
    public one and only the keys of the private one that the public one
    lacks: when the public reply has threads, the private threads are not in
    the result. *)
Theorem get_archived_threads_public_wins self limit before w :
  let r1 := list_private_archived_threads self limit before in
  let r2 := list_public_archived_threads self limit before in
  let out := ThreadableMixin.get_archived_threads ThreadList ThreadList_from_dict
               server self limit before w in
  (forall e, server w r1 = inl e -> out = (Raises e, [r1])) /\
  (forall d1 e, server w r1 = inr d1 -> server (w ++ [r1]) r2 = inl e ->
                out = (Raises e, [r1; r2])) /\
  (forall d1 d2, server w r1 = inr d1 -> server (w ++ [r1]) r2 = inr d2 ->
     exists d,
       out = (Returns (ThreadList_from_dict d), [r1; r2]) /\
       data_id d = Some self /\
       (forall ts, threads d2 = Some ts -> threads d = Some ts) /\
       (threads d2 = None -> threads d = threads d1) /\
       (forall ms, members d2 = Some ms -> members d = Some ms) /\
       (members d2 = None -> members d = members d1)).
Proof.
  intros r1 r2 out. subst out. unfold get_archived_threads. fold r1 r2.
  split; [|split].
  - intros e ->. reflexivity.
  - intros d1 e -> ->. reflexivity.
  - intros d1 d2 -> ->. eexists. split; [reflexivity|]. cbn.
    repeat split; try (intros ? ->; reflexivity); intros ->; reflexivity.
Qed.

End ThreadProperties.

(** ** Group DMs: the recipients kept by the object *)

Section RecipientProperties.

Variable User_eq : DMGroup.User -> DMGroup.User -> bool.
Variable cache_get_user : Z -> exn + DMGroup.User.
Variable server : list DMGroup.event -> DMGroup.request -> option exn.

Local Notation remove := (DMGroup.remove User_eq).
Local Notation differs x := (fun y => User_eq y x = false).

Lemma remove_none x l :
  remove x l = None <-> Forall (differs x) l.
Proof.
  induction l as [|y l IH]; cbn [DMGroup.remove].
  - split; [constructor | reflexivity].
  - destruct (User_eq y x) eqn:E.
    + split; [discriminate|]. intros H. inversion H; congruence.
    + destruct (remove x l) as [r|].
      * split; [discriminate|]. intros H. inversion H as [|? ? _ Hl]; subst.
        apply IH in Hl. discriminate.
      * split; [|reflexivity]. intros _. constructor; [exact E|]. now apply IH.
Qed.

Lemma remove_first x l1 y l2 :
  Forall (differs x) l1 -> User_eq y x = true ->
  remove x (l1 ++ y :: l2) = Some (l1 ++ l2).
Proof.
  intros H Hy. induction H as [|z l1 Hz _ IH]; cbn [DMGroup.remove app].
  - now rewrite Hy.
  - now rewrite Hz, IH.
Qed.

Lemma remove_length x : forall l r,
  remove x l = Some r -> S (length r) = length l.
Proof.
  induction l as [|y l IH]; intros r; cbn [DMGroup.remove]; [discriminate|].
  destruct (User_eq y x).
  - now intros [= ->].
  - destruct (remove x l) as [r'|]; [|discriminate].
    intros [= <-]. cbn [length]. now rewrite (IH r' eq_refl).
Qed.

Lemma remove_snoc x : User_eq x x = true -> forall l,
  remove x (l ++ [x]) =
    Some match remove x l with Some r => r ++ [x] | None => l end.
Proof.
  intros Hx. induction l as [|y l IH]; cbn [DMGroup.remove app].
  - now rewrite Hx.
  - destruct (User_eq y x); [reflexivity|].
    rewrite IH. now destruct (remove x l).
Qed.

(** X12: [remove_recipient] asks the HTTP client to remove the user the cache
    answers and then, the request accepted, tells [list.remove] to take that
    user out of the recipients the object holds.  When no recipient held is
    equal to the user, the call raises the ValueError of [list.remove] and
    the recipients are as before; otherwise the first recipient equal to the
    user is dropped, whether or not it is the same in the rest, and only
    that one. *)
Theorem remove_recipient_absent self recipients user u w :
  cache_get_user user = inr u ->
  server (w ++ [DMGroup.get_user user])
         (DMGroup.group_dm_remove_recipient self (DMGroup.id u)) = None ->
  let out := DMGroup.remove_recipient User_eq cache_get_user server self
               recipients user w in
  snd out = [DMGroup.get_user user;
             DMGroup.http (DMGroup.group_dm_remove_recipient self (DMGroup.id u))] /\
  (Forall (fun y => User_eq y u = false) recipients ->
   out = (inl (ValueError "list.remove(x): x not in list"), recipients, snd out)) /\
  (forall l1 y l2,
     recipients = l1 ++ y :: l2 ->
     Forall (fun y => User_eq y u = false) l1 -> User_eq y u = true ->
     out = (inr tt, l1 ++ l2, snd out)).
Proof.
  intros Hc Hs out. subst out. unfold DMGroup.remove_recipient. rewrite Hc, Hs.
  split; [now destruct (remove u recipients)|]. split.
  - intros Hn. apply remove_none in Hn. now rewrite Hn.
  - intros l1 y l2 -> Hl Hy. now rewrite (remove_first _ _ _ _ Hl Hy).
Qed.

(** X13: adding a user and then removing that user, both accepted and the
    user equal to itself, leaves as many recipients as there were.  When no
    recipient held before was equal to the user, the recipients are as they
    were; otherwise the first recipient that was equal to the user is the one
    that goes, and the user added stays, last. *)
Theorem add_then_remove_recipient self recipients user u token nickname w1 w2 :
  User_eq u u = true ->
  cache_get_user user = inr u ->
  server (w1 ++ [DMGroup.get_user user])
         (DMGroup.group_dm_add_recipient self (DMGroup.id u) token nickname) = None ->
  server (w2 ++ [DMGroup.get_user user])
         (DMGroup.group_dm_remove_recipient self (DMGroup.id u)) = None ->
  let added := DMGroup.add_recipient cache_get_user server self recipients user
                 token nickname w1 in
  let removed := DMGroup.remove_recipient User_eq cache_get_user server self
                   (snd (fst added)) user w2 in
  fst (fst added) = inr tt /\ snd (fst added) = recipients ++ [u] /\
  fst (fst removed) = inr tt /\
  length (snd (fst removed)) = length recipients /\
  (Forall (fun y => User_eq y u = false) recipients ->
   snd (fst removed) = recipients) /\
  (forall l1 y l2,
     recipients = l1 ++ y :: l2 ->
     Forall (fun y => User_eq y u = false) l1 -> User_eq y u = true ->
     snd (fst removed) = l1 ++ l2 ++ [u]).
Proof.
  intros Hu Hc Ha Hr added removed. subst removed added.
  unfold DMGroup.add_recipient, DMGroup.remove_recipient.
  rewrite Hc, Ha. cbn [fst snd]. rewrite Hr, (remove_snoc _ Hu). cbn [fst snd].
  split; [reflexivity|]. split; [reflexivity|]. split; [reflexivity|].
  split; [|split].
  - destruct (remove u recipients) as [r|] eqn:Er; [|reflexivity].
    apply remove_length in Er. rewrite length_app. cbn [length]. lia.
  - intros Hn. apply remove_none in Hn. now rewrite Hn.
  - intros l1 y l2 -> Hl Hy. rewrite (remove_first _ _ _ _ Hl Hy).
    now rewrite <- app_assoc.
Qed.

End RecipientProperties.

(** ** Members of a channel and channels of a category *)

Lemma filter_split {A} (p q : A -> bool) (l : list A) :
  Permutation (filter q l)
              (filter (fun x => p x && q x) l ++ filter (fun x => negb (p x) && q x) l).
Proof.
  induction l as [|x l IH]; [reflexivity|]. cbn [filter].
  destruct (p x), (q x); cbn [negb andb app]; try exact IH.
  - now constructor.
  - rewrite <- Permutation_middle. now constructor.
Qed.

Lemma filter_and {A} (p q : A -> bool) (l : list A) :
  filter (fun x => p x && q x) l = filter p (filter q l).
Proof.
  induction l as [|x l IH]; [reflexivity|]. cbn [filter].
  destruct (q x); cbn [filter]; [|now rewrite andb_false_r].
  rewrite andb_true_r. destruct (p x); now rewrite IH.
Qed.

(** X14: on a guild channel that is not a voice channel, [members] is the
    comprehension of [GuildChannel] over VIEW_CHANNEL, and the members are
    the [bots] and the [humans] together, each once: [bots] are those of
    [members] that are bots and [humans] those that are not, in the order of
    [members].  On a voice or stage channel [members] is the comprehension of
    [VoiceChannel] over CONNECT, while [bots] and [humans] are still those of
    [GuildChannel]: there they split the members that can view the channel,
    not [members]. *)
Theorem members_are_bots_and_humans guild_members can_view can_connect :
  let view := GuildChannel.members guild_members can_view in
  let bots := GuildChannel.bots guild_members can_view in
  let humans := GuildChannel.humans guild_members can_view in
  Forall (fun c =>
            channel_members c guild_members can_view can_connect = Some view /\
            channel_bots c guild_members can_view = Some bots /\
            channel_humans c guild_members can_view = Some humans)
         [classes.GuildText; classes.GuildNews; classes.GuildCategory;
          classes.GuildStore; classes.GuildPublicThread;
          classes.GuildPrivateThread; classes.GuildNewsThread] /\
  Forall (fun c =>
            channel_members c guild_members can_view can_connect =
              Some (VoiceChannel.members guild_members can_connect) /\
            channel_bots c guild_members can_view = Some bots /\
            channel_humans c guild_members can_view = Some humans)
         [classes.GuildVoice; classes.GuildStageVoice] /\
  Permutation view (bots ++ humans) /\
  bots = filter GuildChannel.bot view /\
  humans = filter (fun m => negb (GuildChannel.bot m)) view.
Proof.
  intros view bots humans.
  split; [repeat constructor|]. split; [repeat constructor|].
  unfold view, bots, humans, GuildChannel.members, GuildChannel.bots,
    GuildChannel.humans.
  split; [apply filter_split|].
  split; apply filter_and.
Qed.

(** A member that may view a voice channel and may not connect to it is one
    of its [humans] and none of its [members]. *)
Example voice_members_are_not_split :
  let m := GuildChannel.mk_Member 1 false in
  let can_view := fun _ : GuildChannel.Member => true in
  let can_connect := fun _ : GuildChannel.Member => false in
  channel_members classes.GuildVoice [m] can_view can_connect = Some [] /\
  channel_humans classes.GuildVoice [m] can_view = Some [m].
Proof. split; reflexivity. Qed.

Lemma isinstance_exact c :
  classes.isinstance c classes.GuildText = classes.class_eqb c classes.GuildText /\
  classes.isinstance c classes.GuildStageVoice =
    classes.class_eqb c classes.GuildStageVoice /\
  classes.isinstance c classes.GuildVoice
  && negb (classes.isinstance c classes.GuildStageVoice) =
    classes.class_eqb c classes.GuildVoice.
Proof. destruct c; vm_compute; repeat split. Qed.

Lemma class_eqb_eq a b : classes.class_eqb a b = true <-> a = b.
Proof.
  unfold classes.class_eqb. destruct (classes.class_eq_dec a b); split;
    auto; discriminate.
Qed.

(** X15: in a category, [text_channels] are exactly its channels of class
    GuildText (no news channel and no thread), [voice_channels] exactly those
    of class GuildVoice (no stage channel) and [stage_channels] exactly those
    of class GuildStageVoice: no channel is in two of the lists. *)
Theorem category_lists guild_channels self c :
  (In c (GuildCategory.text_channels guild_channels self) <->
   In c (GuildCategory.channels guild_channels self) /\
   GuildCategory.class_of c = classes.GuildText) /\
  (In c (GuildCategory.voice_channels guild_channels self) <->
   In c (GuildCategory.channels guild_channels self) /\
   GuildCategory.class_of c = classes.GuildVoice) /\
  (In c (GuildCategory.stage_channels guild_channels self) <->
   In c (GuildCategory.channels guild_channels self) /\
   GuildCategory.class_of c = classes.GuildStageVoice) /\
  (In c (GuildCategory.channels guild_channels self) <->
   In c guild_channels /\ GuildCategory.parent_id c = Some self).
Proof.
  unfold GuildCategory.text_channels, GuildCategory.voice_channels,
    GuildCategory.stage_channels.
  destruct (isinstance_exact (GuildCategory.class_of c)) as (Ht & Hs & Hv).
  rewrite !filter_In. cbv beta. rewrite Hv, Ht, Hs, !class_eqb_eq.
  repeat split; try tauto.
  - unfold GuildCategory.channels in H. apply filter_In in H. tauto.
  - unfold GuildCategory.channels in H. apply filter_In in H. destruct H as [_ H].
    unfold GuildCategory.in_category in H.
    destruct (GuildCategory.parent_id c); [|discriminate].
    apply Z.eqb_eq in H. now subst.
  - intros [H1 H2]. unfold GuildCategory.channels. apply filter_In.
    split; [exact H1|]. unfold GuildCategory.in_category. rewrite H2.
    apply Z.eqb_refl.
Qed.

(** ** The factory *)

(** X16: [from_dict_factory] raises TypeError when the data has no type or
    a type that is the value of no member keying [TYPE_CHANNEL_MAPPING];
    otherwise, the members having distinct values, it builds the channel with
    the class the mapping gives that member, which is one of the eleven
    concrete channel classes. *)
Theorem from_dict_factory_builds (value : BaseChannel.ChannelTypes -> Z) :
  (forall a b, value a = value b -> a = b) ->
  BaseChannel.from_dict_factory value None = BaseChannel.TypeError /\
  (forall t, (forall k, value k <> t) ->
             BaseChannel.from_dict_factory value (Some t) = BaseChannel.TypeError) /\
  (forall k, exists c,
      BaseChannel.from_dict_factory value (Some (value k)) = BaseChannel.from_dict c /\
      In (k, c) BaseChannel.TYPE_CHANNEL_MAPPING /\
      In c classes.TYPE_CHANNEL_MAPPING_classes).
Proof.
  intros Hinj. split; [reflexivity|]. split.
  - intros t Ht. unfold BaseChannel.from_dict_factory, BaseChannel.mapping_get.
    cbn [rev BaseChannel.TYPE_CHANNEL_MAPPING app find fst].
    repeat match goal with
           | |- context [value ?a =? t] =>
               destruct (Z.eqb_spec (value a) t) as [E|_]; [now apply Ht in E|]
           end.
    reflexivity.
  - assert (Hne : forall a b, a <> b -> (value a =? value b) = false).
    { intros a b Hab. apply Z.eqb_neq. intros E. apply Hinj in E. contradiction. }
    intros k. unfold BaseChannel.from_dict_factory, BaseChannel.mapping_get.
    cbn [rev BaseChannel.TYPE_CHANNEL_MAPPING app find fst].
    destruct k;
      repeat (first [rewrite Z.eqb_refl | rewrite Hne by discriminate]);
      cbn [option_map snd]; eexists; (split; [reflexivity|]);
      split; cbn; tauto.
Qed.

(** ** These properties at work *)

Lemma purge_selects_first_witness :
  exists acc seen evs,
    async_for (channel_server (countdown 9)) cache_identity 20
      (purge_history 7 (mkPurgeArgs 3 100 None true None None None None))
      (watch (purge_body demo_LOADING demo_user 3 accept_all true
                         (fourteen_days_ago demo_EPOCH demo_fl demo_now)))
      ([], []) [] = (Return (acc, seen), evs) /\
    acc = [9; 8; 7] /\
    acc = purge_choice demo_LOADING demo_user
            (mkPurgeArgs 3 100 None true None None None None)
            (fourteen_days_ago demo_EPOCH demo_fl demo_now) seen.
Proof.
  eexists. eexists. eexists. split; [vm_compute; reflexivity|].
  split; [reflexivity|].
  refine (proj2 (purge_selects_first (channel_server (countdown 9)) cache_identity
                   demo_LOADING demo_EPOCH demo_user demo_fl 20 7
                   (mkPurgeArgs 3 100 None true None None None None) demo_now []
                   _ _ _ _)).
  vm_compute. reflexivity.
Defined.

Lemma purge_negative_limit_witness :
  deletion_limit (mkPurgeArgs (-1) 100 None true None None None None) < 0 /\
  demo_purge (channel_server (countdown 9)) 20
             (mkPurgeArgs (-1) 100 None true None None None None) demo_now =
  demo_purge (channel_server (countdown 9)) 20 (purge_all 100) demo_now.
Proof.
  split; [cbn; lia|].
  apply (purge_negative_limit (channel_server (countdown 9)) cache_identity
           demo_LOADING demo_EPOCH demo_user demo_fl 20 7
           (mkPurgeArgs (-1) 100 None true None None None None) demo_now []).
  cbn. lia.
Defined.

Lemma purge_deletes_accumulated_witness :
  exists acc evs,
    demo_scan (channel_server (countdown 9)) 20 (purge_all 100) demo_now =
      (Return acc, evs) /\
    deleted_ids (snd (demo_purge (channel_server (countdown 9)) 20 (purge_all 100)
                                 demo_now)) = rev acc.
Proof.
  eexists. eexists. split; [vm_compute; reflexivity|].
  apply (purge_deletes_accumulated (channel_server (countdown 9)) cache_identity
           demo_LOADING demo_EPOCH demo_user demo_fl 20 7 (purge_all 100) demo_now [] _ _
           eq_refl (channel_server_accepts_deletions (countdown 9))).
Defined.

Lemma purge_scan_failure_witness :
  exists evs,
    demo_scan (failing_page_server (countdown 5) 1 (HTTPException 502)) 20
              (purge_all 0) demo_now = (Raise (HTTPException 502), evs) /\
    demo_purge (failing_page_server (countdown 5) 1 (HTTPException 502)) 20
               (purge_all 0) demo_now = (Raise (HTTPException 502), evs) /\
    deleted_ids evs = [].
Proof.
  eexists. split; [vm_compute; reflexivity|].
  destruct (purge_scan_failure
              (failing_page_server (countdown 5) 1 (HTTPException 502))
              cache_identity demo_LOADING demo_EPOCH demo_user demo_fl 20 7 (purge_all 0)
              demo_now [] _ _ eq_refl) as (Hp & Hd & _).
  split; [exact Hp | exact Hd].
Defined.

Lemma create_invite_rejects_witness :
  InvitableMixin.create_invite 1 2 unit unit demo_invites (fun d => d)
    7 86400 0 false false None (Some 5) (Some 6) None =
  (inl (ValueError
          "Invite target must be either User or Embedded Application, not both."),
   []) /\
  InvitableMixin.create_invite 1 2 unit unit demo_invites (fun d => d)
    7 86400 0 false false (Some 1) None (Some 6) None =
  (inl (ValueError "Stream target must include target user id."), []) /\
  InvitableMixin.create_invite 1 2 unit unit demo_invites (fun d => d)
    7 86400 0 false false (Some 2) (Some 5) None None =
  (inl (ValueError
          "Embedded Application target must include target application id."),
   []).
Proof.
  split; [|split].
  - apply (create_invite_rejects 1 2 unit unit demo_invites (fun d => d)
             7 86400 0 false false None (Some 5) (Some 6) None); reflexivity.
  - apply (create_invite_rejects 1 2 unit unit demo_invites (fun d => d)
             7 86400 0 false false (Some 1) None (Some 6) None);
      first [reflexivity | lia].
  - apply (create_invite_rejects 1 2 unit unit demo_invites (fun d => d)
             7 86400 0 false false (Some 2) (Some 5) None None);
      first [reflexivity | lia].
Defined.

Lemma create_invite_sends_consistent_witness :
  exists call,
    snd (InvitableMixin.create_invite 1 2 unit unit demo_invites (fun d => d)
           7 86400 0 false false None (Some 5) None None) = [call] /\
    InvitableMixin.target_type call = Some 1.
Proof.
  eexists. 
  destruct (create_invite_sends_consistent 1 2 unit unit demo_invites (fun d => d)
              7 86400 0 false false None (Some 5) None None
              (InvitableMixin.mk_create_channel_invite 7 86400 0 false false (Some 1)
                 (Some 5) None None))
    as (Hs & _ & _ & _ & _ & Ht & _).
  - vm_compute. now left.
  - split; [exact Hs | apply Ht; reflexivity].
Defined.

Lemma get_active_threads_keeps_witness :
  exists d',
    ThreadableMixin.get_active_threads unit (fun _ => tt) demo_thread_server 7 1 [] =
      (ThreadableMixin.Returns tt, [ThreadableMixin.list_active_threads 1]) /\
    ThreadableMixin.threads d' =
      Some [ThreadableMixin.mk_thread 11 7; ThreadableMixin.mk_thread 13 7] /\
    ThreadableMixin.members d' =
      Some [ThreadableMixin.mk_thread_member 11 1;
            ThreadableMixin.mk_thread_member 13 3].
Proof.
  destruct (get_active_threads_keeps unit (fun _ => tt) demo_thread_server 7 1 []
              _ demo_threads demo_thread_members eq_refl eq_refl eq_refl)
    as (d' & ts' & ms' & Hr & Ht & Hm & _ & _ & -> & ->).
  exists d'. split; [exact Hr|]. split; [exact Ht | exact Hm].
Defined.

Lemma get_active_threads_members_follow_witness :
  In (ThreadableMixin.mk_thread_member 12 2)
     (ThreadableMixin.clean_members
        (snd (ThreadableMixin.split_threads 7 demo_threads [] []))
        demo_thread_members []) <->
  In (ThreadableMixin.mk_thread 12 8)
     (fst (ThreadableMixin.split_threads 7 demo_threads [] [])).
Proof.
  apply get_active_threads_members_follow.
  - vm_compute. repeat constructor; cbn; intuition discriminate.
  - cbn. auto.
  - cbn. auto.
  - reflexivity.
Defined.

Lemma get_archived_threads_public_wins_witness :
  exists d,
    ThreadableMixin.get_archived_threads _ (fun d => d) demo_thread_server
      7 None None [] =
      (ThreadableMixin.Returns d,
       [ThreadableMixin.list_private_archived_threads 7 None None;
        ThreadableMixin.list_public_archived_threads 7 None None]) /\
    ThreadableMixin.threads d = Some [ThreadableMixin.mk_thread 22 7] /\
    ThreadableMixin.data_id d = Some 7.
Proof.
  destruct (get_archived_threads_public_wins _ (fun d => d) demo_thread_server
              7 None None []) as (_ & _ & H).
  destruct (H _ _ eq_refl eq_refl) as (d & Hr & Hid & Ht & _).
  exists d. split; [exact Hr|]. split; [apply Ht; reflexivity | exact Hid].
Defined.

Lemma remove_recipient_absent_witness :
  DMGroup.remove_recipient demo_User_eq demo_get_user demo_dm_server 7
    [DMGroup.mk_User 1 "one"; DMGroup.mk_User 2 "old"] 2 [] =
  (inr tt, [DMGroup.mk_User 1 "one"],
   [DMGroup.get_user 2; DMGroup.http (DMGroup.group_dm_remove_recipient 7 2)]).
Proof.
  destruct (remove_recipient_absent demo_User_eq demo_get_user demo_dm_server 7
              [DMGroup.mk_User 1 "one"; DMGroup.mk_User 2 "old"] 2
              (DMGroup.mk_User 2 "user") [] eq_refl eq_refl) as (Hs & _ & Hd).
  rewrite (Hd [DMGroup.mk_User 1 "one"] (DMGroup.mk_User 2 "old") [] eq_refl), Hs;
    [reflexivity | | reflexivity].
  constructor; [reflexivity | constructor].
Defined.

Example remove_recipient_raises_run :
  DMGroup.remove_recipient demo_User_eq demo_get_user demo_dm_server 7
    [DMGroup.mk_User 1 "one"] 2 [] =
  (inl (ValueError "list.remove(x): x not in list"), [DMGroup.mk_User 1 "one"],
   [DMGroup.get_user 2; DMGroup.http (DMGroup.group_dm_remove_recipient 7 2)]).
Proof. reflexivity. Qed.

Lemma add_then_remove_recipient_witness :
  demo_User_eq (DMGroup.mk_User 2 "user") (DMGroup.mk_User 2 "user") = true /\
  snd (fst (DMGroup.remove_recipient demo_User_eq demo_get_user demo_dm_server 7
              (snd (fst (DMGroup.add_recipient demo_get_user demo_dm_server 7
                           [DMGroup.mk_User 2 "old"; DMGroup.mk_User 1 "one"]
                           2 "token" None [])))
              2 [])) =
  [DMGroup.mk_User 1 "one"; DMGroup.mk_User 2 "user"].
Proof.
  split; [reflexivity|].
  destruct (add_then_remove_recipient demo_User_eq demo_get_user demo_dm_server 7
              [DMGroup.mk_User 2 "old"; DMGroup.mk_User 1 "one"] 2
              (DMGroup.mk_User 2 "user") "token" None
              [] [] eq_refl eq_refl eq_refl eq_refl) as (_ & _ & _ & _ & _ & H).
  apply (H [] (DMGroup.mk_User 2 "old") [DMGroup.mk_User 1 "one"] eq_refl);
    [constructor | reflexivity].
Defined.

(** The values of the members, as the platform numbers its channel types. *)
Lemma from_dict_factory_builds_witness :
  let value k :=
    match k with
    | BaseChannel.GUILD_TEXT => 0 | BaseChannel.DM => 1
    | BaseChannel.GUILD_VOICE => 2 | BaseChannel.GROUP_DM => 3
    | BaseChannel.GUILD_CATEGORY => 4 | BaseChannel.GUILD_NEWS => 5
    | BaseChannel.GUILD_STORE => 6 | BaseChannel.GUILD_NEWS_THREAD => 10
    | BaseChannel.GUILD_PUBLIC_THREAD => 11 | BaseChannel.GUILD_PRIVATE_THREAD => 12
    | BaseChannel.GUILD_STAGE_VOICE => 13
    end in
  BaseChannel.from_dict_factory value (Some 7) = BaseChannel.TypeError /\
  BaseChannel.from_dict_factory value (Some 0) =
    BaseChannel.from_dict classes.GuildText.
Proof.
  intros value.
  assert (Hinj : forall a b, value a = value b -> a = b)
    by (intros a b; destruct a, b; cbn; intros H; first [reflexivity | discriminate H]).
  destruct (from_dict_factory_builds value Hinj) as (_ & Hbad & _).
  split; [|reflexivity].
  apply Hbad. intros k. destruct k; cbn; discriminate.
Defined.

Lemma purge_deletes_once_witness :
  NoDup (deleted_ids (snd (demo_purge (channel_server (countdown 4)) 20
                                      (purge_all 100) demo_now))).
Proof.
  refine (purge_deletes_once (channel_server (countdown 4)) cache_identity
            demo_LOADING demo_EPOCH demo_user demo_fl 20 7 (purge_all 100) demo_now []
            (map id (countdown 4)) (countdown 4) _ _ _).
  - vm_compute. reflexivity.
  - vm_compute. repeat constructor; cbn; intuition discriminate.
Defined.

(** A message made in the millisecond the float falls in: 125/256 of a
    millisecond after its timestamp 0 the message is older than the clock
    less 14 days, it is not below the cutoff, and the purge deletes it. *)
Lemma cutoff_is_fourteen_days_witness :
  let m := mkMessage 1 0 0 in
  Z.shiftr (id m) 22 = 0 /\
  ~ id m < fourteen_days_ago demo_EPOCH demo_fl demo_boundary /\
  deleted_ids (snd (demo_purge (channel_server [m]) 5 (purge_all 100) demo_boundary))
  = [id m].
Proof.
  intros m. split; [reflexivity|]. split; [|vm_compute; reflexivity].
  destruct (cutoff_is_fourteen_days demo_LOADING demo_EPOCH demo_user demo_fl
              demo_boundary accept_all true m) as (_ & _ & H).
  intros Hlt. apply H in Hlt.
  - vm_compute in Hlt. apply Hlt. reflexivity.
  - vm_compute. discriminate.
Defined.
